(** * Diagonal Sudoku solver (solution.py): model and verification

    The solver keeps a Python [dict] from box names ("A1" .. "I9") to
    strings of candidate digits.  The strategies mutate that dictionary in
    place while they iterate over it, so the model threads the dictionary
    through every loop explicitly, in iteration order, and a read of a
    missing key raises [KeyError] as [values[box]] does in Python. *)

From Stdlib Require Import List String Ascii Arith Bool Lia Permutation.
Import ListNotations.
Local Open Scope string_scope.
Local Open Scope list_scope.

(** ** Python strings *)

Module Str.

Definition chars (s : string) : list ascii := list_ascii_of_string s.

(** A one-character string, as produced by iterating over a [str]. *)
Definition of_char (c : ascii) : string := String c EmptyString.

(** [c in s] for a one-character [c]. *)
Fixpoint contains (c : ascii) (s : string) : bool :=
  match s with
  | EmptyString => false
  | String x s' => Ascii.eqb x c || contains c s'
  end.

(** [s.replace(c, '')] for a one-character [c]: every occurrence goes. *)
Fixpoint replace_empty (c : ascii) (s : string) : string :=
  match s with
  | EmptyString => EmptyString
  | String x s' =>
      if Ascii.eqb x c then replace_empty c s' else String x (replace_empty c s')
  end.

(** [s[::-1]] *)
Definition reverse (s : string) : string :=
  string_of_list_ascii (rev (chars s)).

(** [s'] is obtained from [s] by deleting characters. *)
Inductive subseq : string -> string -> Prop :=
| subseq_nil : subseq EmptyString EmptyString
| subseq_skip c s' s : subseq s' s -> subseq s' (String c s)
| subseq_keep c s' s : subseq s' s -> subseq (String c s') (String c s).

End Str.

(** ** Results of a call

    A call returns a value, raises [KeyError], or (in the model only) runs
    out of the fuel that bounds the [while] loop and the recursion. *)

Inductive outcome (A : Type) : Type :=
| Return (a : A)
| KeyError
| OutOfFuel.

Arguments Return {A} a.
Arguments KeyError {A}.
Arguments OutOfFuel {A}.

Definition bind {A B : Type} (m : outcome A) (f : A -> outcome B) : outcome B :=
  match m with
  | Return a => f a
  | KeyError => KeyError
  | OutOfFuel => OutOfFuel
  end.

Notation "x <- m ;; k" := (bind m (fun x => k))
  (at level 61, m at next level, right associativity).

(** [for x in xs: state = body(state, x)] *)
Fixpoint foldM {A S : Type} (body : S -> A -> outcome S) (xs : list A) (st : S)
  : outcome S :=
  match xs with
  | [] => Return st
  | x :: xs' => st' <- body st x ;; foldM body xs' st'
  end.

(** ** The dictionary of candidates *)

Definition box := string.

(** A [dict] in insertion order. *)
Definition values := list (box * string).

Definition keys (d : values) : list box := map fst d.

Fixpoint get (d : values) (k : box) : option string :=
  match d with
  | [] => None
  | (k', s) :: d' => if String.eqb k' k then Some s else get d' k
  end.

(** [d[k]] *)
Definition lookup (d : values) (k : box) : outcome string :=
  match get d k with
  | Some s => Return s
  | None => KeyError
  end.

(** [d[k] = s]: an existing key keeps its place, a new one goes last. *)
Fixpoint set (d : values) (k : box) (s : string) : values :=
  match d with
  | [] => [(k, s)]
  | (k', s') :: d' =>
      if String.eqb k' k then (k', s) :: d' else (k', s') :: set d' k s
  end.

(** [len([box for box in values.keys() if len(values[box]) == n])] *)
Definition count_len (n : nat) (d : values) : nat :=
  List.length
    (filter (fun b => match get d b with
                      | Some s => Nat.eqb (String.length s) n
                      | None => false
                      end) (keys d)).

(** ** The board

    [utils.py] is not part of the sources at hand; the names it exports are
    modelled here. *)

(** Modelled from the spec: [rows] of utils.py, the nine row letters of
    the cell identifiers ("row letter + column digit"). *)
Definition rows : string := "ABCDEFGHI".

(** Modelled from the spec: [cols] of utils.py, the nine column digits. *)
Definition cols : string := "123456789".

(** Modelled from the spec: [cross(A, B)] of utils.py, the identifiers
    made of one character of [A] followed by one of [B]. *)
Definition cross (A B : string) : list box :=
  flat_map (fun x => map (fun y => String x (Str.of_char y)) (Str.chars B))
           (Str.chars A).

(** Modelled from the spec: [boxes] of utils.py, the 81 cells. *)
Definition boxes : list box := cross rows cols.

Definition row_units : list (list box) :=
  map (fun r => cross (Str.of_char r) cols) (Str.chars rows).

Definition column_units : list (list box) :=
  map (fun c => cross rows (Str.of_char c)) (Str.chars cols).

Definition square_units : list (list box) :=
  flat_map (fun rs => map (fun cs => cross rs cs) ["123"; "456"; "789"])
           ["ABC"; "DEF"; "GHI"].

Definition diagonal_units : list (list box) :=
  [ map (fun '(r, c) => String r (Str.of_char c))
        (combine (Str.chars rows) (Str.chars cols));
    map (fun '(r, c) => String r (Str.of_char c))
        (combine (Str.chars rows) (Str.chars (Str.reverse cols))) ].

Definition unitlist : list (list box) :=
  row_units ++ column_units ++ square_units ++ diagonal_units.

Definition mem (b : box) (l : list box) : bool := existsb (String.eqb b) l.

(** Modelled from the spec: [extract_units] of utils.py, the units a cell
    belongs to. *)
Definition units (b : box) : list (list box) :=
  filter (mem b) unitlist.

(** Modelled from the spec: [extract_peers] of utils.py, "the set of all
    other Cells appearing in any Unit with it (deduplicated)".  The set is
    listed in order of first appearance; [discard_perm] below shows that the
    order in which a set of peers is visited does not matter. *)
Definition peers (b : box) : list box :=
  nodup string_dec
        (filter (fun p => negb (String.eqb p b)) (List.concat (units b))).

(** Modelled from the spec: [grid2values] of utils.py, "candidate sets
    initialized to the single given digit or to all 9 digits for unknown
    cells"; the givens are the digits 1-9, every other character stands
    for an unknown cell. *)
Definition grid2values (grid : string) : values :=
  map (fun '(val, key) =>
         (key, if Str.contains val "123456789" then Str.of_char val
               else "123456789"))
      (combine (Str.chars grid) boxes).

(** ** The strategies *)

(** [values[cell] = values[cell].replace(digit, '')] *)
Definition discard (digit : ascii) (d : values) (cell : box) : outcome values :=
  s <- lookup d cell ;;
  Return (set d cell (Str.replace_empty digit s)).

(** Body of the loop of [eliminate] for the item [k]; [v] is read when the
    item is reached, so it reflects the removals made so far. *)
Definition eliminate_item (d : values) (k : box) : outcome values :=
  v <- lookup d k ;;
  match v with
  | String digit EmptyString => foldM (discard digit) (peers k) d
  | _ => Return d
  end.

Definition eliminate (d : values) : outcome values :=
  foldM eliminate_item (keys d) d.

(** [[box for box in unit if digit in values[box]]] *)
Fixpoint places (digit : ascii) (d : values) (unit : list box)
  : outcome (list box) :=
  match unit with
  | [] => Return []
  | b :: unit' =>
      s <- lookup d b ;;
      ps <- places digit d unit' ;;
      Return (if Str.contains digit s then b :: ps else ps)
  end.

Definition only_choice_digit (unit : list box) (d : values) (digit : ascii)
  : outcome values :=
  places_counter <- places digit d unit ;;
  match places_counter with
  | [b] => Return (set d b (Str.of_char digit))
  | _ => Return d
  end.

Definition only_choice_unit (d : values) (unit : list box) : outcome values :=
  foldM (only_choice_digit unit) (Str.chars "123456789") d.

Definition only_choice (d : values) : outcome values :=
  foldM only_choice_unit unitlist d.

(** [[(box, values[box]) for box in unit if len(values[box]) == 2]] *)
Fixpoint possible_twins (d : values) (unit : list box)
  : outcome (list (box * string)) :=
  match unit with
  | [] => Return []
  | b :: unit' =>
      s <- lookup d b ;;
      pt <- possible_twins d unit' ;;
      Return (if Nat.eqb (String.length s) 2 then (b, s) :: pt else pt)
  end.

(** The two innermost loops of [naked_twins]: every digit of the twin value
    leaves every cell of the unit other than the two twins. *)
Definition strip_twin (unit : list box) (bi bj : box) (t : string) (d : values)
  : outcome values :=
  foldM (fun d cell => foldM (fun d digit => discard digit d cell) (Str.chars t) d)
        (filter (fun cell => negb (String.eqb cell bi || String.eqb cell bj)) unit)
        d.

(** [for j in range(i+1, len(possible_twins))] *)
Definition twins_with (unit : list box) (pi : box * string) (d : values)
  (pj : box * string) : outcome values :=
  if String.eqb (snd pi) (snd pj)
  then strip_twin unit (fst pi) (fst pj) (snd pi) d
  else Return d.

(** [for i in range(len(possible_twins))] *)
Fixpoint twin_pairs (unit : list box) (pt : list (box * string)) (d : values)
  : outcome values :=
  match pt with
  | [] => Return d
  | pi :: rest =>
      d' <- foldM (twins_with unit pi) rest d ;;
      twin_pairs unit rest d'
  end.

Definition naked_twins_unit (d : values) (unit : list box) : outcome values :=
  pt <- possible_twins d unit ;;
  twin_pairs unit pt d.

Definition naked_twins (d : values) : outcome values :=
  foldM naked_twins_unit unitlist d.

(** ** The reducer *)

(** One turn of the [while] loop of [reduce_puzzle]; lines 134-138 and
    141-146 of the source repeat the loops of [eliminate] and
    [only_choice] word for word. *)
Definition reduce_pass (d : values) : outcome values :=
  d1 <- eliminate d ;;
  only_choice d1.

(** [None] is Python's [False]. *)
Fixpoint reduce_puzzle (fuel : nat) (d : values) : outcome (option values) :=
  match fuel with
  | 0 => OutOfFuel
  | S fuel' =>
      let solved_values_before := count_len 1 d in
      d' <- reduce_pass d ;;
      let solved_values_after := count_len 1 d' in
      let stalled := Nat.eqb solved_values_before solved_values_after in
      if negb (Nat.eqb (count_len 0 d') 0) then Return None
      else if stalled then Return (Some d')
      else reduce_puzzle fuel' d'
  end.

(** ** The search driver *)

(** The scan of lines 184-195: [(min_length, min_box, solved_values)]. *)
Definition scan_item (st : nat * option box * nat) (item : box * string)
  : nat * option box * nat :=
  let '(min_length, min_box, solved_values) := st in
  let '(b, choices) := item in
  if Nat.eqb (String.length choices) 1 then (min_length, min_box, S solved_values)
  else if Nat.ltb (String.length choices) min_length
       then (String.length choices, Some b, solved_values)
       else st.

Definition scan (d : values) : nat * option box * nat :=
  fold_left scan_item d (10, None, 0).

(** Truth value of a [dict or False]. *)
Definition truthy (r : option values) : bool :=
  match r with
  | Some (_ :: _) => true
  | _ => false
  end.

(** [for choice in choices: ...] of lines 203-211, [rec] being the
    recursive call. *)
Fixpoint try_choices (rec : values -> outcome (option values)) (d : values)
  (min_box : box) (choices : list ascii) : outcome (option values) :=
  match choices with
  | [] => Return None
  | choice :: rest =>
      let new_puzzle := set d min_box (Str.of_char choice) in
      sol <- rec new_puzzle ;;
      if truthy sol then Return sol
      else try_choices rec d min_box rest
  end.

Fixpoint search (fuel : nat) (d : values) : outcome (option values) :=
  match fuel with
  | 0 => OutOfFuel
  | S fuel' =>
      r <- reduce_puzzle fuel d ;;
      if negb (truthy r) then Return None
      else
        match r with
        | None => Return None
        | Some d' =>
            let '(_, min_box, solved_values) := scan d' in
            if Nat.eqb solved_values 81 then Return (Some d')
            else
              (* [values[min_box]] raises when [min_box] is still [None] *)
              match min_box with
              | Some b =>
                  choices <- lookup d' b ;;
                  try_choices (search fuel') d' b (Str.chars choices)
              | None => KeyError
              end
        end
  end.

Definition solve (fuel : nat) (grid : string) : outcome (option values) :=
  search fuel (grid2values grid).

Definition diag_sudoku_grid : string :=
  "2.............62....1....7...6..8...3...9...7...6..4...4....8....52.............3".


(** ** Well-formed assignments *)

Definition digits : string := "123456789".

(** Boolean test for [Str.subseq]. *)
Fixpoint is_subseq (s' s : string) {struct s} : bool :=
  match s with
  | EmptyString => match s' with EmptyString => true | _ => false end
  | String b s2 =>
      match s' with
      | EmptyString => true
      | String a s1 => if Ascii.eqb a b then is_subseq s1 s2 else is_subseq s' s2
      end
  end.

(** An assignment maps each of the 81 cells, and nothing else, to a string. *)
Definition is_assignment (d : values) : bool :=
  Nat.eqb (List.length (keys d)) 81 && forallb (fun b => mem b (keys d)) boxes.

(** Every candidate set is a set of digits 1-9 in increasing order, as
    [grid2values] creates them and the strategies keep them. *)
Definition candidates_ok (d : values) : bool :=
  forallb (fun item => is_subseq (snd item) digits) d.

(** [candidates_ok], in terms of lookups. *)
Definition within_digits (d : values) : Prop :=
  forall k s, get d k = Some s -> Str.subseq s digits.

(** No cell has more than nine candidates. *)
Definition at_most_nine (d : values) : bool :=
  forallb (fun item => Nat.leb (String.length (snd item)) 9) d.

(** [at_most_nine], in terms of lookups. *)
Definition short (d : values) : Prop :=
  forall k s, get d k = Some s -> String.length s <= 9.

(** Every cell holds exactly one character. *)
Definition all_single (d : values) : bool :=
  forallb (fun item => Nat.eqb (String.length (snd item)) 1) d.

(** [all_single], in terms of lookups. *)
Definition singles (d : values) : Prop :=
  forall k s, get d k = Some s -> String.length s = 1.

(** ** Narrowing, counting and solved grids *)

(** The result only narrows the candidates: same cells in the same order,
    every candidate string a subsequence of the former one. *)
Definition narrows (d d' : values) : Prop :=
  keys d' = keys d /\
  forall k s, get d k = Some s -> exists s', get d' k = Some s' /\ Str.subseq s' s.

(** Cells that are fixed in [e] and were not in [d]. *)
Definition new_singles (d e : values) : list box :=
  filter (fun k => match get e k, get d k with
                   | Some s', Some s =>
                       Nat.eqb (String.length s') 1 && negb (Nat.eqb (String.length s) 1)
                   | _, _ => false
                   end) (keys e).

(** [digit in values[b]], false for a missing key. *)
Definition has (digit : ascii) (d : values) (b : box) : bool :=
  match get d b with
  | Some s => Str.contains digit s
  | None => false
  end.

(** The digit of a solved cell. *)
Definition digit_of (d : values) (b : box) : ascii :=
  match get d b with
  | Some (String x _) => x
  | _ => "0"%char
  end.

(** No solved cell shares its digit with a peer. *)
Definition conflict_free (d : values) : Prop :=
  forall k c p, get d k = Some (Str.of_char c) -> In p (peers k) -> has c d p = false.

(** Number of cells of [unit] holding exactly the digit [c]. *)
Definition count_digit (d : values) (unit : list box) (c : ascii) : nat :=
  List.length
    (filter (fun b => match get d b with
                      | Some s => String.eqb s (Str.of_char c)
                      | None => false
                      end) unit).

(** Every unit contains each of the digits 1-9 exactly once. *)
Definition units_ok (d : values) : bool :=
  forallb (fun unit =>
             forallb (fun c => Nat.eqb (count_digit d unit c) 1) (Str.chars digits))
          unitlist.

(** A complete grid that satisfies the 29 units. *)
Definition solved_grid (d : values) : bool :=
  is_assignment d && all_single d && units_ok d.

(** Number of items whose value has one character, as the scan of the
    search counts them. *)
Definition solved_items (d : values) : nat :=
  List.length (filter (fun item => Nat.eqb (String.length (snd item)) 1) d).

(** Total number of candidates left, the measure that bounds the search. *)
Definition weight (d : values) : nat :=
  list_sum (map (fun k => match get d k with
                          | Some s => String.length s
                          | None => 0
                          end) (keys d)).

(** ** The reducer and the driver of the specification *)

(** The reducer as the specification words it: Eliminate, then
    Only-Choice; a contradiction if some cell is empty; the stabilised
    assignment if the number of solved cells did not change; otherwise
    again. *)
Inductive reducer_spec : values -> option values -> Prop :=
| reducer_contradiction d d1 d2 :
    eliminate d = Return d1 -> only_choice d1 = Return d2 ->
    count_len 0 d2 <> 0 ->
    reducer_spec d None
| reducer_stalled d d1 d2 :
    eliminate d = Return d1 -> only_choice d1 = Return d2 ->
    count_len 0 d2 = 0 -> count_len 1 d2 = count_len 1 d ->
    reducer_spec d (Some d2)
| reducer_progress d d1 d2 r :
    eliminate d = Return d1 -> only_choice d1 = Return d2 ->
    count_len 0 d2 = 0 -> count_len 1 d < count_len 1 d2 ->
    reducer_spec d2 r ->
    reducer_spec d r.

(** The search on [d] returns [r]: it does so with any fuel from some
    amount on. *)
Definition search_returns (d : values) (r : option values) : Prop :=
  exists n, forall fuel, n <= fuel -> search fuel d = Return r.

(** Branch-explore as the specification words it: the candidates of the
    selected cell are tried in order, each on a copy with the cell fixed to
    that digit; the first success is the result, and failure if there is
    none.  [run d r] says that the search started on [d] returns [r]. *)
Inductive first_success (run : values -> option values -> Prop)
  (d : values) (b : box) : list ascii -> option values -> Prop :=
| first_success_none : first_success run d b [] None
| first_success_hit c cs sol :
    run (set d b (Str.of_char c)) (Some sol) ->
    first_success run d b (c :: cs) (Some sol)
| first_success_miss c cs r :
    run (set d b (Str.of_char c)) None ->
    first_success run d b cs r ->
    first_success run d b (c :: cs) r.

(** [naked_twins] detects the twin pair [(bi, bj)] of value [t] in [unit]:
    the pair is found, [bi] before [bj], among the two-candidate cells of
    the unit as they stand when the loop reaches that unit. *)
Definition detected (d : values) (unit : list box) (bi bj : box) (t : string)
  : Prop :=
  exists before after d0 pt l1 l2 l3,
    unitlist = before ++ unit :: after /\
    foldM naked_twins_unit before d = Return d0 /\
    possible_twins d0 unit = Return pt /\
    pt = l1 ++ (bi, t) :: l2 ++ (bj, t) :: l3.

(** The search driver as the specification describes it, with Naked-Twins
    applied at every node after the reducer. *)
Fixpoint search_with_naked_twins (fuel : nat) (d : values)
  : outcome (option values) :=
  match fuel with
  | 0 => OutOfFuel
  | S fuel' =>
      r <- reduce_puzzle fuel d ;;
      match r with
      | None => Return None
      | Some d0 =>
          d' <- naked_twins d0 ;;
          let '(_, min_box, solved_values) := scan d' in
          if Nat.eqb solved_values 81 then Return (Some d')
          else
            match min_box with
            | Some b =>
                choices <- lookup d' b ;;
                try_choices (search_with_naked_twins fuel') d' b (Str.chars choices)
            | None => KeyError
            end
      end
  end.

(** ** Checks on the board *)

(** Facts about the board tables that are settled by evaluation. *)
Fixpoint nodupb (l : list box) : bool :=
  match l with
  | [] => true
  | x :: l' => negb (mem x l') && nodupb l'
  end.

Definition board_ok : bool :=
  nodupb boxes && Nat.eqb (List.length boxes) 81 &&
  Nat.eqb (List.length unitlist) 29 &&
  forallb (fun u => nodupb u && Nat.eqb (List.length u) 9 &&
                    forallb (fun b => mem b boxes) u) unitlist.

(** ** Grids and assignments of the examples *)

(** The value a call returned, [default] if it raised. *)
Definition returned {A : Type} (default : A) (m : outcome A) : A :=
  match m with
  | Return a => a
  | _ => default
  end.

(** The assignment [reduce_puzzle] returns, [d] itself if it returns none. *)
Definition reduced (d : values) : values :=
  match reduce_puzzle 82 d with
  | Return (Some r) => r
  | _ => d
  end.

(** The solution of [diag_sudoku_grid], as a grid. *)
Definition diag_sudoku_solved : string :=
  "267945381853716249491823576576438192384192657129657438642379815935281764718564923".

(** [diag_sudoku_grid] without its last given: a puzzle with several
    solutions, on which the search has to branch. *)
Definition open_grid : string :=
  "2.............62....1....7...6..8...3...9...7...6..4...4....8....52..............".

(** The solution of [open_grid] that [search] returns. *)
Definition found_by_search : string :=
  "289357164437816259561924378126748935354192687978635412642573891815269743793481526".

(** The solution of [open_grid] that the search returns when it applies
    Naked-Twins at every node. *)
Definition found_with_twins : string :=
  "257381694438976251961425378726548913384192567519637482642719835875263149193854726".

(** A grid whose first row has every cell given but the first one. *)
Definition row_grid : string :=
  ".23456789........................................................................".

(** The first unit of [unitlist]. *)
Definition row_A : list box :=
  ["A1"; "A2"; "A3"; "A4"; "A5"; "A6"; "A7"; "A8"; "A9"].

(** Every cell open, but twins "12" in row A (A1, A5) and twins "23" in
    column 1 (D1, G1). *)
Definition crossing_twins : values :=
  set (set (set (set (grid2values
    ".................................................................................")
    "A1" "12") "A5" "12") "D1" "23") "G1" "23".

(** ** Solutions of an assignment *)

(** The complete grid [sol] is one of the grids that [d] still allows: the
    digit of each cell is among the candidates of that cell in [d]. *)
Definition fits (sol d : values) : bool :=
  forallb (fun item => match get sol (fst item) with
                       | Some (String c EmptyString) => Str.contains c (snd item)
                       | _ => false
                       end) d.

(** [fits], in terms of lookups. *)
Definition admits (d sol : values) : Prop :=
  forall k s, get d k = Some s ->
              exists c, get sol k = Some (Str.of_char c) /\ Str.contains c s = true.

(** Every cell of the board is a key of [d]. *)
Definition covers (d : values) : bool :=
  forallb (fun b => mem b (keys d)) boxes.

(** Every cell of the board lies in some unit. *)
Definition board_covered : bool :=
  forallb (fun b => existsb (mem b) unitlist) boxes.

(** [eliminate] with the set [peers[k]] visited in the order [order k]. *)
Definition eliminate_item_ordered (order : box -> list box) (d : values) (k : box)
  : outcome values :=
  v <- lookup d k ;;
  match v with
  | String digit EmptyString => foldM (discard digit) (order k) d
  | _ => Return d
  end.

Definition eliminate_ordered (order : box -> list box) (d : values)
  : outcome values :=
  foldM (eliminate_item_ordered order) (keys d) d.

(** A cell is left as it is, or two or more candidates are replaced by one
    of them. *)
Definition kept_or_chosen (d d' : values) : Prop :=
  keys d' = keys d /\
  forall k s, get d k = Some s ->
              get d' k = Some s \/
              (2 <= String.length s /\
               exists c, Str.contains c s = true /\ get d' k = Some (Str.of_char c)).

(** [diag_sudoku_grid] with its first given repeated in A2. *)
Definition repeated_grid : string :=
  "22............62....1....7...6..8...3...9...7...6..4...4....8....52.............3".

(** ** Strings *)

Module StrFacts.
Import Str.

Lemma subseq_empty_l s : subseq EmptyString s.
Proof. induction s; constructor; assumption. Qed.

Lemma subseq_refl s : subseq s s.
Proof. induction s; constructor; assumption. Qed.

Lemma subseq_length s' s : subseq s' s -> String.length s' <= String.length s.
Proof. induction 1; simpl; lia. Qed.

Lemma subseq_trans s1 s2 s3 : subseq s1 s2 -> subseq s2 s3 -> subseq s1 s3.
Proof.
  intros H12 H23. revert s1 H12.
  induction H23 as [| c s2 s3 H IH | c s2 s3 H IH]; intros s1 H12.
  - assumption.
  - constructor. apply IH. assumption.
  - inversion H12; subst.
    + constructor. apply IH. assumption.
    + apply subseq_keep. apply IH. assumption.
Qed.

Lemma subseq_same_length s' s :
  subseq s' s -> String.length s' = String.length s -> s' = s.
Proof.
  induction 1 as [| c s' s H IH | c s' s H IH]; simpl; intros E.
  - reflexivity.
  - apply subseq_length in H. lia.
  - f_equal. apply IH. lia.
Qed.

Lemma subseq_contains c s' s :
  subseq s' s -> contains c s' = true -> contains c s = true.
Proof.
  induction 1 as [| x s' s H IH | x s' s H IH]; simpl; intros E.
  - discriminate.
  - rewrite IH by assumption. apply orb_true_r.
  - apply orb_true_iff in E. destruct E as [E | E].
    + rewrite E. reflexivity.
    + rewrite IH by assumption. apply orb_true_r.
Qed.

Lemma subseq_absent c s' s :
  subseq s' s -> contains c s = false -> contains c s' = false.
Proof.
  intros H E. destruct (contains c s') eqn:E'; [| reflexivity].
  rewrite (subseq_contains c s' s H E') in E. discriminate.
Qed.

Lemma subseq_of_char c s : contains c s = true -> subseq (of_char c) s.
Proof.
  induction s as [| x s IH]; simpl; intros E.
  - discriminate.
  - destruct (Ascii.eqb_spec x c) as [-> | N].
    + apply subseq_keep. apply subseq_empty_l.
    + constructor. apply IH. assumption.
Qed.

Lemma replace_empty_subseq c s : subseq (replace_empty c s) s.
Proof.
  induction s as [| x s IH]; simpl.
  - constructor.
  - destruct (Ascii.eqb x c); constructor; assumption.
Qed.

Lemma replace_empty_absent c s : contains c (replace_empty c s) = false.
Proof.
  induction s as [| x s IH]; simpl.
  - reflexivity.
  - destruct (Ascii.eqb x c) eqn:E; simpl.
    + assumption.
    + rewrite E, IH. reflexivity.
Qed.

Lemma replace_empty_id c s : contains c s = false -> replace_empty c s = s.
Proof.
  induction s as [| x s IH]; simpl; intros E.
  - reflexivity.
  - apply orb_false_iff in E. destruct E as [E1 E2].
    rewrite E1, IH by assumption. reflexivity.
Qed.

Lemma contains_In c s : contains c s = true <-> In c (chars s).
Proof.
  induction s as [| x s IH]; simpl.
  - split; [discriminate | tauto].
  - rewrite orb_true_iff, IH. split; intros [H | H]; auto.
    + left. apply Ascii.eqb_eq. assumption.
    + left. apply Ascii.eqb_eq. assumption.
Qed.

Lemma length_one s : String.length s = 1 -> exists c, s = of_char c.
Proof.
  destruct s as [| c [| c' s]]; simpl; intros E; try discriminate.
  exists c. reflexivity.
Qed.

Lemma length_chars s : List.length (chars s) = String.length s.
Proof. induction s; simpl; auto. Qed.

Lemma is_subseq_sound s : forall s', is_subseq s' s = true -> subseq s' s.
Proof.
  induction s as [| b s IH]; intros [| a s1]; simpl; intros E;
    try discriminate; try (apply subseq_empty_l).
  destruct (Ascii.eqb_spec a b) as [-> | N].
  - apply subseq_keep. apply IH. assumption.
  - constructor. apply IH. assumption.
Qed.

Lemma subseq_single_absent c s :
  subseq s (of_char c) -> contains c s = false -> s = EmptyString.
Proof.
  intros H E. inversion H as [| x s' s0 H' | x s' s0 H']; subst.
  - inversion H'. reflexivity.
  - simpl in E. rewrite Ascii.eqb_refl in E. discriminate.
Qed.

End StrFacts.

(** ** The monad and its loops *)

Lemma bind_Return {A B} (m : outcome A) (f : A -> outcome B) (b : B) :
  bind m f = Return b -> exists a, m = Return a /\ f a = Return b.
Proof. destruct m; simpl; intros H; try discriminate. eauto. Qed.

Lemma bind_assoc {A B C} (m : outcome A) (f : A -> outcome B) (g : B -> outcome C) :
  bind (bind m f) g = bind m (fun x => bind (f x) g).
Proof. destruct m; reflexivity. Qed.

Ltac inv_bind H :=
  let a := fresh "a" in
  let Ha := fresh "Ha" in
  apply bind_Return in H; destruct H as (a & Ha & H).

Lemma foldM_app {A S} (body : S -> A -> outcome S) xs ys st :
  foldM body (xs ++ ys) st = (st' <- foldM body xs st ;; foldM body ys st').
Proof.
  revert st. induction xs as [| x xs IH]; intros st; simpl.
  - reflexivity.
  - destruct (body st x); simpl; auto.
Qed.

Lemma foldM_noop {A S} (body : S -> A -> outcome S) xs st :
  (forall a, In a xs -> body st a = Return st) -> foldM body xs st = Return st.
Proof.
  induction xs as [| x xs IH]; simpl; intros H.
  - reflexivity.
  - rewrite H by auto. simpl. apply IH. auto.
Qed.

(** A loop whose every turn stays within a preorder stays within it. *)
Lemma foldM_preorder {A S} (R : S -> S -> Prop) (body : S -> A -> outcome S) xs :
  (forall st, R st st) ->
  (forall a b c, R a b -> R b c -> R a c) ->
  (forall st a st', In a xs -> body st a = Return st' -> R st st') ->
  forall st st', foldM body xs st = Return st' -> R st st'.
Proof.
  intros Hrefl Htrans. induction xs as [| x xs IH]; simpl; intros Hbody st st' H.
  - injection H as <-. apply Hrefl.
  - inv_bind H. apply Htrans with a.
    + apply (Hbody st x a); auto.
    + apply IH; auto.
      intros st0 a0 st0' Hin. apply Hbody. auto.
Qed.

(** ** Dictionaries *)

Lemma mem_In b l : mem b l = true <-> In b l.
Proof.
  unfold mem. rewrite existsb_exists. split.
  - intros (x & Hx & E). apply String.eqb_eq in E. subst. assumption.
  - intros H. exists b. split; [assumption | apply String.eqb_refl].
Qed.

Lemma nodupb_NoDup l : nodupb l = true -> NoDup l.
Proof.
  induction l as [| x l IH]; simpl; intros H.
  - constructor.
  - apply andb_true_iff in H. destruct H as [H1 H2]. constructor.
    + intros Hin. apply mem_In in Hin. rewrite Hin in H1. discriminate.
    + apply IH. assumption.
Qed.

Lemma get_set_same d k s : get (set d k s) k = Some s.
Proof.
  induction d as [| [k' s'] d IH]; simpl.
  - rewrite String.eqb_refl. reflexivity.
  - destruct (String.eqb k' k) eqn:E; simpl; rewrite E; auto.
Qed.

Lemma get_set_other d k k' s : k <> k' -> get (set d k s) k' = get d k'.
Proof.
  intros N. induction d as [| [k0 s0] d IH]; simpl.
  - destruct (String.eqb_spec k k'); [contradiction | reflexivity].
  - destruct (String.eqb_spec k0 k) as [-> | N0]; simpl.
    + destruct (String.eqb_spec k k'); [contradiction | reflexivity].
    + rewrite IH. reflexivity.
Qed.

Lemma keys_set d k s : In k (keys d) -> keys (set d k s) = keys d.
Proof.
  induction d as [| [k0 s0] d IH]; simpl; intros H.
  - contradiction.
  - destruct (String.eqb_spec k0 k) as [-> | N0]; simpl; [reflexivity |].
    f_equal. apply IH. destruct H; [contradiction | assumption].
Qed.

Lemma set_same d k s : get d k = Some s -> set d k s = d.
Proof.
  induction d as [| [k0 s0] d IH]; simpl; intros H.
  - discriminate.
  - destruct (String.eqb_spec k0 k) as [-> | N0].
    + injection H as ->. reflexivity.
    + f_equal. apply IH. assumption.
Qed.

Lemma get_keys d k s : get d k = Some s -> In k (keys d).
Proof.
  induction d as [| [k0 s0] d IH]; simpl; intros H.
  - discriminate.
  - destruct (String.eqb_spec k0 k) as [-> | N0]; auto.
Qed.

Lemma keys_get d k : In k (keys d) -> exists s, get d k = Some s.
Proof.
  induction d as [| [k0 s0] d IH]; simpl; intros H.
  - contradiction.
  - destruct (String.eqb_spec k0 k) as [-> | N0]; eauto.
    destruct H; [contradiction | auto].
Qed.

Lemma get_In d k s : get d k = Some s -> In (k, s) d.
Proof.
  induction d as [| [k0 s0] d IH]; simpl; intros H.
  - discriminate.
  - destruct (String.eqb_spec k0 k) as [-> | N0].
    + injection H as ->. auto.
    + auto.
Qed.

Lemma In_get d k s : NoDup (keys d) -> In (k, s) d -> get d k = Some s.
Proof.
  induction d as [| [k0 s0] d IH]; simpl; intros ND H.
  - contradiction.
  - inversion ND as [| x l Hnin ND']; subst.
    destruct H as [H | H].
    + injection H as -> ->. rewrite String.eqb_refl. reflexivity.
    + destruct (String.eqb_spec k0 k) as [-> | N0]; [| auto].
      exfalso. apply Hnin. change (In (fst (k, s)) (map fst d)).
      apply in_map. assumption.
Qed.

Lemma lookup_Return d k s : lookup d k = Return s <-> get d k = Some s.
Proof.
  unfold lookup. destruct (get d k); split; intros H; congruence.
Qed.

Lemma lookup_keys d k : In k (keys d) -> exists s, lookup d k = Return s.
Proof.
  intros H. destruct (keys_get d k H) as [s Hs]. exists s.
  apply lookup_Return. assumption.
Qed.

(** ** Narrowing *)

Lemma narrows_refl d : narrows d d.
Proof.
  split; [reflexivity |]. intros k s H. exists s. split; [assumption |].
  apply StrFacts.subseq_refl.
Qed.

Lemma narrows_trans a b c : narrows a b -> narrows b c -> narrows a c.
Proof.
  intros [K1 G1] [K2 G2]. split; [congruence |].
  intros k s H. destruct (G1 k s H) as (s1 & H1 & S1).
  destruct (G2 k s1 H1) as (s2 & H2 & S2). exists s2. split; [assumption |].
  apply StrFacts.subseq_trans with s1; assumption.
Qed.

Lemma narrows_set d k s s' :
  get d k = Some s -> Str.subseq s' s -> narrows d (set d k s').
Proof.
  intros H Hs. split.
  - apply keys_set. apply get_keys with s. assumption.
  - intros k0 s0 H0. destruct (string_dec k k0) as [-> | N].
    + rewrite get_set_same. exists s'. split; [reflexivity | congruence].
    + rewrite get_set_other by assumption. exists s0. split; [assumption |].
      apply StrFacts.subseq_refl.
Qed.

Lemma narrows_back d d' k s' :
  narrows d d' -> get d' k = Some s' ->
  exists s, get d k = Some s /\ Str.subseq s' s.
Proof.
  intros [K G] H. assert (Hin : In k (keys d)).
  { rewrite <- K. apply get_keys with s'. assumption. }
  destruct (keys_get d k Hin) as [s Hs]. exists s. split; [assumption |].
  destruct (G k s Hs) as (s1 & H1 & S1). congruence.
Qed.

Lemma foldM_narrows {A} (body : values -> A -> outcome values) xs :
  (forall d a d', In a xs -> body d a = Return d' -> narrows d d') ->
  forall d d', foldM body xs d = Return d' -> narrows d d'.
Proof.
  apply foldM_preorder.
  - apply narrows_refl.
  - apply narrows_trans.
Qed.

(** A narrowing loop over a dictionary with the keys [K] cannot fail as
    long as each of its turns succeeds on such dictionaries. *)
Lemma foldM_total {A} (K : list box) (body : values -> A -> outcome values) xs :
  (forall d a, In a xs -> keys d = K ->
               exists d', body d a = Return d' /\ narrows d d') ->
  forall d, keys d = K -> exists d', foldM body xs d = Return d' /\ narrows d d'.
Proof.
  induction xs as [| x xs IH]; simpl; intros Hbody d HK.
  - exists d. split; [reflexivity | apply narrows_refl].
  - destruct (Hbody d x (or_introl eq_refl) HK) as (d1 & H1 & N1).
    rewrite H1. simpl.
    destruct (IH (fun d a Hin => Hbody d a (or_intror Hin)) d1) as (d2 & H2 & N2).
    { destruct N1 as [K1 _]. congruence. }
    exists d2. split; [assumption |]. apply narrows_trans with d1; assumption.
Qed.

(** ** The board *)

Lemma board_ok_true : board_ok = true.
Proof. vm_compute. reflexivity. Qed.

Lemma boxes_NoDup : NoDup boxes.
Proof.
  pose proof board_ok_true as H. unfold board_ok in H.
  repeat (apply andb_true_iff in H; destruct H as [H ?]).
  apply nodupb_NoDup. assumption.
Qed.

Lemma boxes_length : List.length boxes = 81.
Proof.
  pose proof board_ok_true as H. unfold board_ok in H.
  repeat (apply andb_true_iff in H; destruct H as [H ?]).
  apply Nat.eqb_eq. assumption.
Qed.

Lemma unit_facts u :
  In u unitlist -> NoDup u /\ List.length u = 9 /\ incl u boxes.
Proof.
  intros Hu. pose proof board_ok_true as H. unfold board_ok in H.
  apply andb_true_iff in H. destruct H as [_ H].
  rewrite forallb_forall in H. specialize (H u Hu).
  apply andb_true_iff in H. destruct H as [H H3].
  apply andb_true_iff in H. destruct H as [H1 H2].
  split; [apply nodupb_NoDup; assumption |].
  split; [apply Nat.eqb_eq; assumption |].
  intros b Hb. rewrite forallb_forall in H3. apply mem_In. auto.
Qed.

Lemma peers_spec k p :
  In p (peers k) <-> p <> k /\ exists u, In u unitlist /\ In k u /\ In p u.
Proof.
  unfold peers, units. rewrite nodup_In, filter_In, in_concat. split.
  - intros [(u & Hu & Hp) N]. apply filter_In in Hu. destruct Hu as [Hu Hk].
    split.
    + intros ->. rewrite String.eqb_refl in N. discriminate.
    + exists u. rewrite mem_In in Hk. auto.
  - intros [N (u & Hu & Hk & Hp)]. split.
    + exists u. split; [| assumption]. apply filter_In. split; [assumption |].
      apply mem_In. assumption.
    + destruct (String.eqb_spec p k); [contradiction | reflexivity].
Qed.

Lemma peers_in_boxes k p : In p (peers k) -> In p boxes.
Proof.
  intros H. apply peers_spec in H. destruct H as [_ (u & Hu & _ & Hp)].
  destruct (unit_facts u Hu) as (_ & _ & Hincl). auto.
Qed.

(** Two different cells of one unit are peers of each other. *)
Lemma unit_peers u a b : In u unitlist -> In a u -> In b u -> a <> b -> In b (peers a).
Proof.
  intros Hu Ha Hb N. apply peers_spec. split; [congruence |]. eauto.
Qed.

(** ** The strategies narrow the candidates and do not fail *)

Lemma discard_inv c d cell d' :
  discard c d cell = Return d' ->
  exists s, get d cell = Some s /\ d' = set d cell (Str.replace_empty c s).
Proof.
  unfold discard. intros H. inv_bind H. apply lookup_Return in Ha.
  injection H as <-. eauto.
Qed.

Lemma discard_narrows c d cell d' : discard c d cell = Return d' -> narrows d d'.
Proof.
  intros H. apply discard_inv in H. destruct H as (s & Hs & ->).
  apply narrows_set with s; [assumption | apply StrFacts.replace_empty_subseq].
Qed.

Lemma discard_total c d cell :
  In cell (keys d) -> exists d', discard c d cell = Return d' /\ narrows d d'.
Proof.
  intros H. destruct (keys_get d cell H) as [s Hs].
  exists (set d cell (Str.replace_empty c s)).
  assert (E : discard c d cell = Return (set d cell (Str.replace_empty c s))).
  { unfold discard, lookup. rewrite Hs. reflexivity. }
  split; [assumption |]. apply discard_narrows with c cell. assumption.
Qed.

Lemma eliminate_item_narrows d k d' : eliminate_item d k = Return d' -> narrows d d'.
Proof.
  unfold eliminate_item. intros H. inv_bind H.
  destruct a as [| digit [| x rest]].
  - injection H as <-. apply narrows_refl.
  - revert H. apply foldM_narrows. intros d0 p d0' _. apply discard_narrows.
  - injection H as <-. apply narrows_refl.
Qed.

Lemma eliminate_items_narrows ks d d' :
  foldM eliminate_item ks d = Return d' -> narrows d d'.
Proof. apply foldM_narrows. intros d0 k d0' _. apply eliminate_item_narrows. Qed.

Lemma eliminate_narrows d d' : eliminate d = Return d' -> narrows d d'.
Proof. apply eliminate_items_narrows. Qed.

Lemma places_spec digit d unit ps :
  places digit d unit = Return ps -> ps = filter (has digit d) unit.
Proof.
  revert ps. induction unit as [| b unit IH]; simpl; intros ps H.
  - injection H as <-. reflexivity.
  - inv_bind H. apply lookup_Return in Ha. inv_bind H. injection H as <-.
    unfold has at 1. rewrite Ha. rewrite (IH a0 Ha0). reflexivity.
Qed.

Lemma places_total digit d unit :
  incl unit (keys d) -> places digit d unit = Return (filter (has digit d) unit).
Proof.
  induction unit as [| b unit IH]; simpl; intros H.
  - reflexivity.
  - destruct (keys_get d b (H b (or_introl eq_refl))) as [s Hs].
    unfold lookup, has at 1. rewrite Hs. simpl.
    rewrite IH by (intros x Hx; apply H; right; assumption). reflexivity.
Qed.

Lemma only_choice_digit_narrows unit d digit d' :
  only_choice_digit unit d digit = Return d' -> narrows d d'.
Proof.
  unfold only_choice_digit. intros H. inv_bind H.
  pose proof (places_spec _ _ _ _ Ha) as E.
  destruct a as [| b [| b' rest]].
  - injection H as <-. apply narrows_refl.
  - injection H as <-.
    assert (Hb : In b (filter (has digit d) unit)) by (rewrite <- E; left; reflexivity).
    apply filter_In in Hb. destruct Hb as [_ Hb]. unfold has in Hb.
    destruct (get d b) as [s |] eqn:G; [| discriminate].
    apply narrows_set with s; [assumption |].
    apply StrFacts.subseq_of_char. assumption.
  - injection H as <-. apply narrows_refl.
Qed.

Lemma only_choice_unit_narrows d unit d' :
  only_choice_unit d unit = Return d' -> narrows d d'.
Proof.
  apply foldM_narrows. intros d0 c d0' _. apply only_choice_digit_narrows.
Qed.

Lemma only_choice_narrows d d' : only_choice d = Return d' -> narrows d d'.
Proof.
  apply foldM_narrows. intros d0 u d0' _. apply only_choice_unit_narrows.
Qed.

Lemma strip_twin_narrows unit bi bj t d d' :
  strip_twin unit bi bj t d = Return d' -> narrows d d'.
Proof.
  apply foldM_narrows. intros d0 cell d0' _.
  apply foldM_narrows. intros d1 c d1' _. apply discard_narrows.
Qed.

Lemma twins_with_narrows unit pi d pj d' :
  twins_with unit pi d pj = Return d' -> narrows d d'.
Proof.
  unfold twins_with. destruct (String.eqb (snd pi) (snd pj)).
  - apply strip_twin_narrows.
  - intros H. injection H as <-. apply narrows_refl.
Qed.

Lemma twin_pairs_narrows unit pt : forall d d',
  twin_pairs unit pt d = Return d' -> narrows d d'.
Proof.
  induction pt as [| pi rest IH]; simpl; intros d d' H.
  - injection H as <-. apply narrows_refl.
  - inv_bind H. apply narrows_trans with a.
    + revert Ha. apply foldM_narrows. intros d0 pj d0' _. apply twins_with_narrows.
    + apply IH. assumption.
Qed.

Lemma naked_twins_unit_narrows d unit d' :
  naked_twins_unit d unit = Return d' -> narrows d d'.
Proof.
  unfold naked_twins_unit. intros H. inv_bind H.
  apply twin_pairs_narrows with unit a. assumption.
Qed.

Lemma naked_twins_units_narrows us d d' :
  foldM naked_twins_unit us d = Return d' -> narrows d d'.
Proof. apply foldM_narrows. intros d0 u d0' _. apply naked_twins_unit_narrows. Qed.

Lemma naked_twins_narrows d d' : naked_twins d = Return d' -> narrows d d'.
Proof. apply naked_twins_units_narrows. Qed.

Section Totality.

(** The keys of the dictionary, which cover the board. *)
Variable K : list box.
Hypothesis K_covers : incl boxes K.

Lemma unit_in_K u : In u unitlist -> incl u K.
Proof.
  intros Hu b Hb. apply K_covers. destruct (unit_facts u Hu) as (_ & _ & H). auto.
Qed.

Lemma eliminate_item_total d k :
  In k K -> keys d = K -> exists d', eliminate_item d k = Return d' /\ narrows d d'.
Proof.
  intros Hk HK. unfold eliminate_item.
  destruct (lookup_keys d k) as [v Hv]; [rewrite HK; assumption |].
  rewrite Hv. simpl. destruct v as [| digit [| x rest]].
  - exists d. split; [reflexivity | apply narrows_refl].
  - apply (foldM_total K); [| assumption].
    intros d0 p Hp HK0. apply discard_total. rewrite HK0.
    apply K_covers. apply peers_in_boxes with k. assumption.
  - exists d. split; [reflexivity | apply narrows_refl].
Qed.

Lemma eliminate_total d :
  keys d = K -> exists d', eliminate d = Return d' /\ narrows d d'.
Proof.
  intros HK. unfold eliminate. apply (foldM_total K); [| assumption].
  intros d0 k Hk HK0. apply eliminate_item_total; [| assumption].
  rewrite <- HK. assumption.
Qed.

Lemma only_choice_total d :
  keys d = K -> exists d', only_choice d = Return d' /\ narrows d d'.
Proof.
  intros HK. unfold only_choice. apply (foldM_total K); [| assumption].
  intros d0 u Hu HK0. unfold only_choice_unit.
  apply (foldM_total K); [| assumption].
  intros d1 c _ HK1.
  destruct (only_choice_digit u d1 c) as [d2 | |] eqn:E.
  - exists d2. split; [reflexivity |].
    apply only_choice_digit_narrows with u c. assumption.
  - exfalso. unfold only_choice_digit in E. rewrite places_total in E.
    + simpl in E. destruct (filter (has c d1) u) as [| b [| b' l]]; discriminate.
    + rewrite HK1. apply unit_in_K. assumption.
  - exfalso. unfold only_choice_digit in E. rewrite places_total in E.
    + simpl in E. destruct (filter (has c d1) u) as [| b [| b' l]]; discriminate.
    + rewrite HK1. apply unit_in_K. assumption.
Qed.

Lemma possible_twins_total d u :
  incl u (keys d) -> exists pt, possible_twins d u = Return pt.
Proof.
  induction u as [| b u IH]; simpl; intros H.
  - eauto.
  - destruct (lookup_keys d b (H b (or_introl eq_refl))) as [s Hs]. rewrite Hs.
    destruct IH as [pt Hpt]; [intros x Hx; apply H; right; assumption |].
    rewrite Hpt. simpl. eauto.
Qed.

Lemma strip_twin_total u bi bj t d :
  In u unitlist -> keys d = K ->
  exists d', strip_twin u bi bj t d = Return d' /\ narrows d d'.
Proof.
  intros Hu HK. unfold strip_twin. apply (foldM_total K); [| assumption].
  intros d0 cell Hcell HK0. apply (foldM_total K); [| assumption].
  intros d1 c _ HK1. apply discard_total. rewrite HK1.
  apply filter_In in Hcell. destruct Hcell as [Hcell _].
  apply (unit_in_K u Hu). assumption.
Qed.

Lemma twin_pairs_total u pt : forall d,
  In u unitlist -> keys d = K ->
  exists d', twin_pairs u pt d = Return d' /\ narrows d d'.
Proof.
  induction pt as [| pi rest IH]; simpl; intros d Hu HK.
  - exists d. split; [reflexivity | apply narrows_refl].
  - destruct (foldM_total K (twins_with u pi) rest) with (d := d)
      as (d1 & H1 & N1); [| assumption |].
    + intros d0 pj _ HK0. unfold twins_with.
      destruct (String.eqb (snd pi) (snd pj)).
      * apply strip_twin_total; assumption.
      * exists d0. split; [reflexivity | apply narrows_refl].
    + rewrite H1. simpl. destruct (IH d1 Hu) as (d2 & H2 & N2).
      { destruct N1 as [E _]. congruence. }
      exists d2. split; [assumption |]. apply narrows_trans with d1; assumption.
Qed.

Lemma naked_twins_total d :
  keys d = K -> exists d', naked_twins d = Return d' /\ narrows d d'.
Proof.
  intros HK. unfold naked_twins. apply (foldM_total K); [| assumption].
  intros d0 u Hu HK0. unfold naked_twins_unit.
  destruct (possible_twins_total d0 u) as [pt Hpt].
  { rewrite HK0. apply unit_in_K. assumption. }
  rewrite Hpt. simpl. apply twin_pairs_total; assumption.
Qed.

End Totality.

(** ** Assignments *)

Lemma is_assignment_perm d : is_assignment d = true -> Permutation boxes (keys d).
Proof.
  unfold is_assignment. intros H. apply andb_true_iff in H. destruct H as [H1 H2].
  apply Nat.eqb_eq in H1. apply NoDup_Permutation_bis.
  - apply boxes_NoDup.
  - rewrite H1, boxes_length. apply le_n.
  - intros b Hb. rewrite forallb_forall in H2. apply mem_In. auto.
Qed.

Lemma assignment_covers d : is_assignment d = true -> incl boxes (keys d).
Proof.
  intros H b Hb. apply Permutation_in with boxes; [| assumption].
  apply is_assignment_perm. assumption.
Qed.

Lemma assignment_length d : is_assignment d = true -> List.length (keys d) = 81.
Proof.
  unfold is_assignment. intros H. apply andb_true_iff in H. destruct H as [H1 _].
  apply Nat.eqb_eq. assumption.
Qed.

Lemma assignment_NoDup d : is_assignment d = true -> NoDup (keys d).
Proof.
  intros H. apply Permutation_NoDup with boxes.
  - apply is_assignment_perm. assumption.
  - apply boxes_NoDup.
Qed.

Lemma assignment_keys d d' :
  keys d' = keys d -> is_assignment d = true -> is_assignment d' = true.
Proof. unfold is_assignment. intros ->. trivial. Qed.

Lemma assignment_narrows d d' :
  narrows d d' -> is_assignment d = true -> is_assignment d' = true.
Proof. intros [E _]. apply assignment_keys. assumption. Qed.

(** ** Counting cells by the number of their candidates *)

Lemma filter_length_mono {A} (f g : A -> bool) l :
  (forall x, In x l -> f x = true -> g x = true) ->
  List.length (filter f l) <= List.length (filter g l).
Proof.
  induction l as [| x l IH]; simpl; intros H.
  - apply le_n.
  - assert (IH' := IH (fun y Hy => H y (or_intror Hy))).
    destruct (f x) eqn:F.
    + rewrite (H x (or_introl eq_refl) F). simpl. lia.
    + destruct (g x); simpl; lia.
Qed.

Lemma filter_length_bound {A} (f : A -> bool) l :
  List.length (filter f l) <= List.length l.
Proof.
  induction l as [| x l IH]; simpl; [apply le_n |].
  destruct (f x); simpl; lia.
Qed.

Lemma filter_length_full {A} (f : A -> bool) l :
  List.length (filter f l) = List.length l -> forall x, In x l -> f x = true.
Proof.
  induction l as [| y l IH]; simpl; intros E x Hx.
  - contradiction.
  - pose proof (filter_length_bound f l) as B.
    destruct (f y) eqn:F; simpl in E; [| lia].
    destruct Hx as [<- | Hx]; [assumption |]. apply IH; [lia | assumption].
Qed.

Lemma filter_length_zero {A} (f : A -> bool) l :
  List.length (filter f l) = 0 -> forall x, In x l -> f x = false.
Proof.
  induction l as [| y l IH]; simpl; intros E x Hx.
  - contradiction.
  - destruct (f y) eqn:F; simpl in E; [discriminate |].
    destruct Hx as [<- | Hx]; [assumption |]. apply IH; assumption.
Qed.

Lemma count_len_bound n d : count_len n d <= List.length (keys d).
Proof. apply filter_length_bound. Qed.

Lemma no_empty_get d k s :
  count_len 0 d = 0 -> get d k = Some s -> String.length s <> 0.
Proof.
  intros H G. pose proof (filter_length_zero _ _ H k (get_keys d k s G)) as F.
  simpl in F. rewrite G in F. apply Nat.eqb_neq. assumption.
Qed.

Lemma all_solved_get d k s :
  count_len 1 d = List.length (keys d) -> get d k = Some s -> String.length s = 1.
Proof.
  intros H G. pose proof (filter_length_full _ _ H k (get_keys d k s G)) as F.
  simpl in F. rewrite G in F. apply Nat.eqb_eq. assumption.
Qed.

(** Without an empty cell in the result, narrowing keeps every solved cell
    solved. *)
Lemma solved_mono d d' :
  narrows d d' -> count_len 0 d' = 0 -> count_len 1 d <= count_len 1 d'.
Proof.
  intros [K G] H0. unfold count_len. rewrite K. apply filter_length_mono.
  intros k Hk F. destruct (get d k) as [s |] eqn:Gk; [| discriminate].
  destruct (G k s Gk) as (s' & Gk' & Hs). rewrite Gk'.
  apply Nat.eqb_eq in F. apply Nat.eqb_eq.
  pose proof (StrFacts.subseq_length _ _ Hs).
  pose proof (no_empty_get d' k s' H0 Gk'). lia.
Qed.

(** An empty cell stays empty under narrowing. *)
Lemma no_empty_back d d' :
  narrows d d' -> count_len 0 d' = 0 -> count_len 0 d = 0.
Proof.
  intros [K G] H0. unfold count_len in *. rewrite <- K.
  destruct (List.length (filter _ (keys d'))) eqn:E at 1; [reflexivity |].
  exfalso. pose proof (filter_length_mono
    (fun b => match get d b with Some s => Nat.eqb (String.length s) 0 | None => false end)
    (fun b => match get d' b with Some s => Nat.eqb (String.length s) 0 | None => false end)
    (keys d')) as M.
  rewrite E, H0 in M. assert (S n <= 0); [| lia]. apply M.
  intros k Hk F. destruct (get d k) as [s |] eqn:Gk; [| discriminate].
  destruct (G k s Gk) as (s' & Gk' & Hs). rewrite Gk'.
  apply Nat.eqb_eq in F. apply Nat.eqb_eq.
  pose proof (StrFacts.subseq_length _ _ Hs). lia.
Qed.

(** ** The reducer *)

Lemma reduce_pass_inv d d2 :
  reduce_pass d = Return d2 ->
  exists d1, eliminate d = Return d1 /\ only_choice d1 = Return d2.
Proof. unfold reduce_pass. intros H. inv_bind H. eauto. Qed.

Lemma reduce_pass_narrows d d' : reduce_pass d = Return d' -> narrows d d'.
Proof.
  intros H. apply reduce_pass_inv in H. destruct H as (d1 & H1 & H2).
  apply narrows_trans with d1.
  - apply eliminate_narrows. assumption.
  - apply only_choice_narrows. assumption.
Qed.

Lemma reduce_pass_total d :
  is_assignment d = true -> exists d', reduce_pass d = Return d' /\ narrows d d'.
Proof.
  intros W. pose proof (assignment_covers d W) as C.
  destruct (eliminate_total (keys d) C d eq_refl) as (d1 & H1 & N1).
  destruct (only_choice_total (keys d) C d1) as (d2 & H2 & N2).
  { destruct N1 as [E _]. assumption. }
  exists d2. split.
  - unfold reduce_pass. rewrite H1. simpl. assumption.
  - apply narrows_trans with d1; assumption.
Qed.

(** The loop computes what the specification of the reducer describes. *)
Lemma reduce_puzzle_spec fuel : forall d r,
  reduce_puzzle fuel d = Return r -> reducer_spec d r.
Proof.
  induction fuel as [| fuel IH]; simpl; intros d r H.
  - discriminate.
  - inv_bind H. pose proof (reduce_pass_narrows _ _ Ha) as N.
    apply reduce_pass_inv in Ha. destruct Ha as (d1 & H1 & H2).
    destruct (Nat.eqb_spec (count_len 0 a) 0) as [Z | Z]; simpl in H.
    + pose proof (solved_mono _ _ N Z) as M.
      destruct (Nat.eqb_spec (count_len 1 d) (count_len 1 a)) as [E | E].
      * injection H as <-. apply reducer_stalled with d1; auto.
      * apply reducer_progress with d1 a; auto. lia.
    + injection H as <-. apply reducer_contradiction with d1 a; auto.
Qed.

Lemma reduce_puzzle_mono fuel : forall fuel' d r,
  reduce_puzzle fuel d = Return r -> fuel <= fuel' ->
  reduce_puzzle fuel' d = Return r.
Proof.
  induction fuel as [| fuel IH]; simpl; intros fuel' d r H L.
  - discriminate.
  - destruct fuel' as [| fuel']; [lia |]. simpl.
    destruct (reduce_pass d) as [d' | |]; simpl in *; try discriminate.
    destruct (negb (Nat.eqb (count_len 0 d') 0)); [assumption |].
    destruct (Nat.eqb (count_len 1 d) (count_len 1 d')); [assumption |].
    apply IH; [assumption | lia].
Qed.

Lemma reduce_puzzle_runs n : forall d,
  is_assignment d = true -> 82 <= n + count_len 1 d ->
  exists r, reduce_puzzle n d = Return r.
Proof.
  induction n as [| n IH]; intros d W L.
  - pose proof (count_len_bound 1 d). rewrite (assignment_length d W) in *. lia.
  - simpl. destruct (reduce_pass_total d W) as (d' & H & N). rewrite H. simpl.
    destruct (Nat.eqb_spec (count_len 0 d') 0) as [Z | Z]; simpl; [| eauto].
    destruct (Nat.eqb_spec (count_len 1 d) (count_len 1 d')) as [E | E]; [eauto |].
    apply IH.
    + apply assignment_narrows with d; assumption.
    + pose proof (solved_mono _ _ N Z). lia.
Qed.

Lemma reduce_puzzle_terminates d :
  is_assignment d = true ->
  exists r, forall fuel, 82 <= fuel -> reduce_puzzle fuel d = Return r.
Proof.
  intros W. destruct (reduce_puzzle_runs 82 d W) as [r H]; [lia |].
  exists r. intros fuel L. apply reduce_puzzle_mono with 82; assumption.
Qed.

Lemma reducer_spec_fun d r : reducer_spec d r -> forall r', reducer_spec d r' -> r = r'.
Proof.
  induction 1 as [d d1 d2 H1 H2 Z | d d1 d2 H1 H2 Z E | d d1 d2 r H1 H2 Z L H IH];
    intros r' H'; inversion H' as [x x1 x2 G1 G2 Z' | x x1 x2 G1 G2 Z' E' | x x1 x2 y G1 G2 Z' L' G];
    subst; rewrite H1 in G1; injection G1 as <-; rewrite H2 in G2; injection G2 as <-;
    try reflexivity; try contradiction; try lia.
  apply IH. assumption.
Qed.

(** What a successful reduction leaves: a narrowed assignment without an
    empty cell, on which the last pass fixed no new cell. *)
Lemma reducer_spec_some d r :
  reducer_spec d r -> forall d', r = Some d' ->
  narrows d d' /\ count_len 0 d' = 0 /\
  exists w, narrows d w /\ reduce_pass w = Return d' /\
            count_len 1 d' = count_len 1 w.
Proof.
  induction 1 as [d d1 d2 H1 H2 Z | d d1 d2 H1 H2 Z E | d d1 d2 r H1 H2 Z L H IH];
    intros d' Hr.
  - discriminate.
  - injection Hr as <-.
    assert (P : reduce_pass d = Return d2) by (unfold reduce_pass; rewrite H1; assumption).
    split; [apply reduce_pass_narrows; assumption |].
    split; [assumption |].
    exists d. split; [apply narrows_refl | auto].
  - assert (P : reduce_pass d = Return d2) by (unfold reduce_pass; rewrite H1; assumption).
    apply reduce_pass_narrows in P.
    destruct (IH d' Hr) as (N & Z' & w & Nw & Pw & Ew).
    split; [apply narrows_trans with d2; assumption |].
    split; [assumption |].
    exists w. split; [apply narrows_trans with d2; assumption | auto].
Qed.

(** ** Solved assignments *)

Lemma discard_pass_absent c ps : forall d d' p,
  foldM (discard c) ps d = Return d' -> In p ps ->
  exists s', get d' p = Some s' /\ Str.contains c s' = false.
Proof.
  induction ps as [| q ps IH]; simpl; intros d d' p H Hp.
  - contradiction.
  - inv_bind H. destruct Hp as [-> | Hp].
    + apply discard_inv in Ha. destruct Ha as (s & Hs & ->).
      assert (N : narrows (set d p (Str.replace_empty c s)) d').
      { revert H. apply foldM_narrows. intros d0 x d0' _. apply discard_narrows. }
      destruct N as [_ G].
      destruct (G p _ (get_set_same d p _)) as (s' & Hs' & Sub).
      exists s'. split; [assumption |].
      apply StrFacts.subseq_absent with (Str.replace_empty c s); [assumption |].
      apply StrFacts.replace_empty_absent.
    + apply IH with a; assumption.
Qed.

Lemma discard_pass_noop c ps : forall d d',
  foldM (discard c) ps d = Return d' ->
  (forall p, In p ps -> has c d p = false) -> d' = d.
Proof.
  induction ps as [| q ps IH]; simpl; intros d d' H Hps.
  - injection H as <-. reflexivity.
  - inv_bind H. apply discard_inv in Ha. destruct Ha as (s & Hs & ->).
    pose proof (Hps q (or_introl eq_refl)) as Hq. unfold has in Hq. rewrite Hs in Hq.
    rewrite (StrFacts.replace_empty_id c s Hq), (set_same d q s Hs) in H.
    apply IH; [assumption |]. intros p Hp. apply Hps. right. assumption.
Qed.

(** On an assignment whose cells are all solved, [eliminate] either empties
    a cell or changes nothing, and in the latter case no visited cell shares
    its digit with a peer. *)
Lemma eliminate_solved ks : forall d e,
  singles d -> foldM eliminate_item ks d = Return e -> count_len 0 e = 0 ->
  e = d /\
  forall k c p, In k ks -> get d k = Some (Str.of_char c) -> In p (peers k) ->
                has c d p = false.
Proof.
  induction ks as [| k ks IH]; simpl; intros d e S1 H Z.
  - injection H as <-. split; [reflexivity | contradiction].
  - inv_bind H. rename a into d1. unfold eliminate_item in Ha. inv_bind Ha.
    rename a into v. apply lookup_Return in Ha0.
    destruct (StrFacts.length_one v (S1 k v Ha0)) as [c0 ->]. simpl in Ha.
    assert (Hpeers : forall p, In p (peers k) -> has c0 d p = false).
    { intros p Hp. destruct (has c0 d p) eqn:Hh; [exfalso | reflexivity].
      unfold has in Hh. destruct (get d p) as [s |] eqn:Gp; [| discriminate].
      destruct (StrFacts.length_one s (S1 p s Gp)) as [c' ->].
      simpl in Hh. rewrite orb_false_r in Hh. apply Ascii.eqb_eq in Hh. subst c'.
      destruct (discard_pass_absent c0 _ _ _ p Ha Hp) as (s1 & G1 & A1).
      assert (N1 : narrows d d1).
      { revert Ha. apply foldM_narrows. intros d0 x d0' _. apply discard_narrows. }
      destruct N1 as [_ N1]. destruct (N1 p _ Gp) as (s1' & G1' & Sub1).
      rewrite G1 in G1'. injection G1' as <-.
      pose proof (StrFacts.subseq_single_absent c0 s1 Sub1 A1) as ->.
      pose proof (eliminate_items_narrows ks d1 e H) as [_ N2].
      destruct (N2 p _ G1) as (s2 & G2 & Sub2).
      apply StrFacts.subseq_length in Sub2. simpl in Sub2.
      apply (no_empty_get e p s2 Z G2). lia. }
    pose proof (discard_pass_noop c0 _ _ _ Ha Hpeers) as ->.
    destruct (IH d e S1 H Z) as [E F]. split; [assumption |].
    intros k' c p [<- | Hk] G Hp.
    + rewrite Ha0 in G. injection G as <-. apply Hpeers. assumption.
    + apply F with k'; assumption.
Qed.

(** Without a conflict, [eliminate] changes nothing on a solved assignment. *)
Lemma eliminate_conflict_free d :
  singles d -> conflict_free d -> incl boxes (keys d) -> eliminate d = Return d.
Proof.
  intros S1 CF C. unfold eliminate. apply foldM_noop. intros k Hk.
  unfold eliminate_item. destruct (keys_get d k Hk) as [v Hv].
  unfold lookup. rewrite Hv. simpl.
  destruct (StrFacts.length_one v (S1 k v Hv)) as [c ->]. simpl.
  apply foldM_noop. intros p Hp.
  destruct (keys_get d p (C p (peers_in_boxes k p Hp))) as [s Hs].
  unfold discard, lookup. rewrite Hs. simpl.
  pose proof (CF k c p Hv Hp) as A. unfold has in A. rewrite Hs in A.
  rewrite (StrFacts.replace_empty_id c s A), (set_same d p s Hs). reflexivity.
Qed.

(** [only_choice] changes nothing on a solved assignment. *)
Lemma only_choice_solved d :
  singles d -> incl boxes (keys d) -> only_choice d = Return d.
Proof.
  intros S1 C. unfold only_choice. apply foldM_noop. intros u Hu.
  unfold only_choice_unit. apply foldM_noop. intros c _.
  unfold only_choice_digit. rewrite places_total.
  - simpl. destruct (filter (has c d) u) as [| b [| b' l]] eqn:E; try reflexivity.
    assert (Hb : In b (filter (has c d) u)) by (rewrite E; left; reflexivity).
    apply filter_In in Hb. destruct Hb as [_ Hb]. unfold has in Hb.
    destruct (get d b) as [s |] eqn:G; [| discriminate].
    destruct (StrFacts.length_one s (S1 b s G)) as [c' ->].
    simpl in Hb. rewrite orb_false_r in Hb. apply Ascii.eqb_eq in Hb. subst c'.
    rewrite (set_same d b _ G). reflexivity.
  - apply unit_in_K; assumption.
Qed.

(** A successful reduction that leaves every cell solved leaves no two
    peers with the same digit. *)
Lemma reduced_solved_conflict_free d r :
  is_assignment d = true -> reducer_spec d (Some r) ->
  count_len 1 r = 81 -> singles r /\ conflict_free r.
Proof.
  intros W H E. destruct (reducer_spec_some d _ H r eq_refl) as (N & Z & w & Nw & P & Ew).
  pose proof (assignment_narrows _ _ Nw W) as Ww.
  assert (Sw : singles w).
  { intros k s G. apply all_solved_get with w k; [| assumption].
    rewrite (assignment_length w Ww). congruence. }
  apply reduce_pass_inv in P. destruct P as (e & He & Ho).
  assert (Ze : count_len 0 e = 0).
  { apply no_empty_back with r; [| assumption]. apply only_choice_narrows. assumption. }
  destruct (eliminate_solved (keys w) w e Sw He Ze) as [-> CF].
  rewrite (only_choice_solved w Sw (assignment_covers w Ww)) in Ho.
  injection Ho as <-. split; [assumption |].
  intros k c p G Hp. apply CF with k; [| assumption | assumption].
  apply get_keys with (Str.of_char c). assumption.
Qed.

Lemma NoDup_map_on {A B} (f : A -> B) l :
  NoDup l -> (forall x y, In x l -> In y l -> f x = f y -> x = y) -> NoDup (map f l).
Proof.
  induction 1 as [| a l Hnin ND IH]; simpl; intros Inj.
  - constructor.
  - constructor.
    + intros Hin. apply in_map_iff in Hin. destruct Hin as (y & E & Hy).
      apply Hnin. rewrite (Inj a y); auto.
    + apply IH. intros x y Hx Hy. apply Inj; auto.
Qed.

Lemma filter_two {A} (f : A -> bool) l a b :
  In a l -> In b l -> a <> b -> f a = true -> f b = true ->
  2 <= List.length (filter f l).
Proof.
  induction l as [| x l IH]; simpl; intros Ha Hb N Fa Fb.
  - contradiction.
  - assert (One : forall y, In y l -> f y = true -> 1 <= List.length (filter f l)).
    { intros y Hy Fy. assert (Hin : In y (filter f l)) by (apply filter_In; auto).
      destruct (filter f l); [contradiction | simpl; lia]. }
    destruct Ha as [<- | Ha], Hb as [<- | Hb].
    + contradiction.
    + rewrite Fa. simpl. pose proof (One b Hb Fb). lia.
    + rewrite Fb. simpl. pose proof (One a Ha Fa). lia.
    + pose proof (IH Ha Hb N Fa Fb). destruct (f x); simpl; lia.
Qed.

Lemma count_digit_occ d u c :
  (forall b, In b u -> exists x, get d b = Some (Str.of_char x)) ->
  count_digit d u c = count_occ ascii_dec (map (digit_of d) u) c.
Proof.
  unfold count_digit. induction u as [| b u IH]; intros H.
  - reflexivity.
  - destruct (H b (or_introl eq_refl)) as [x Hx].
    specialize (IH (fun b' Hb' => H b' (or_intror Hb'))).
    assert (Dx : digit_of d b = x) by (unfold digit_of; rewrite Hx; reflexivity).
    cbn [filter map]. rewrite Hx.
    destruct (ascii_dec x c) as [-> | N].
    + rewrite String.eqb_refl, (count_occ_cons_eq ascii_dec _ Dx).
      cbn [List.length]. rewrite IH. reflexivity.
    + rewrite count_occ_cons_neq by congruence.
      destruct (String.eqb_spec (Str.of_char x) (Str.of_char c)) as [E | _].
      * injection E as ->. contradiction.
      * assumption.
Qed.

(** Solved cells holding digits, without conflicts: every unit holds each
    digit exactly once. *)
Lemma units_ok_intro d :
  incl boxes (keys d) -> singles d -> within_digits d -> conflict_free d ->
  units_ok d = true.
Proof.
  intros C S1 WD CF. unfold units_ok. apply forallb_forall. intros u Hu.
  apply forallb_forall. intros c Hc. apply Nat.eqb_eq.
  destruct (unit_facts u Hu) as (ND & Len & Incl).
  assert (Cells : forall b, In b u -> exists x, get d b = Some (Str.of_char x)).
  { intros b Hb. destruct (keys_get d b (C b (Incl b Hb))) as [s Hs].
    destruct (StrFacts.length_one s (S1 b s Hs)) as [x ->]. eauto. }
  rewrite (count_digit_occ d u c Cells).
  set (l := map (digit_of d) u).
  assert (NDl : NoDup l).
  { apply NoDup_map_on; [assumption |]. intros a b Ha Hb E.
    destruct (string_dec a b) as [-> | N]; [reflexivity | exfalso].
    destruct (Cells a Ha) as [x Hx]. destruct (Cells b Hb) as [y Hy].
    unfold digit_of in E. rewrite Hx, Hy in E. simpl in E. subst y.
    pose proof (CF a x b Hx (unit_peers u a b Hu Ha Hb N)) as A.
    unfold has in A. rewrite Hy in A. simpl in A.
    rewrite Ascii.eqb_refl in A. discriminate. }
  assert (Il : incl l (Str.chars digits)).
  { intros x Hx. apply in_map_iff in Hx. destruct Hx as (b & <- & Hb).
    destruct (Cells b Hb) as [y Hy]. unfold digit_of. rewrite Hy.
    change (In y (Str.chars digits)). apply StrFacts.contains_In.
    apply StrFacts.subseq_contains with (Str.of_char y).
    - apply WD with b. assumption.
    - simpl. rewrite Ascii.eqb_refl. reflexivity. }
  assert (Ll : List.length (Str.chars digits) <= List.length l).
  { unfold l. rewrite length_map, Len. simpl. lia. }
  pose proof (NoDup_length_incl NDl Ll Il c Hc) as Hin.
  apply (count_occ_In ascii_dec) in Hin.
  pose proof (proj1 (NoDup_count_occ ascii_dec l) NDl c). lia.
Qed.

(** Conversely, satisfied units leave no conflict between solved digits. *)
Lemma units_ok_conflict_free d :
  singles d -> within_digits d -> units_ok d = true -> conflict_free d.
Proof.
  intros S1 WD U k c p Gk Hp.
  destruct (has c d p) eqn:Hh; [exfalso | reflexivity].
  unfold has in Hh. destruct (get d p) as [s |] eqn:Gp; [| discriminate].
  destruct (StrFacts.length_one s (S1 p s Gp)) as [c' ->].
  simpl in Hh. rewrite orb_false_r in Hh. apply Ascii.eqb_eq in Hh. subst c'.
  apply peers_spec in Hp. destruct Hp as [N (u & Hu & Hku & Hpu)].
  unfold units_ok in U. rewrite forallb_forall in U. specialize (U u Hu).
  rewrite forallb_forall in U.
  assert (Hc : In c (Str.chars digits)).
  { apply StrFacts.contains_In. apply StrFacts.subseq_contains with (Str.of_char c).
    - apply WD with k. assumption.
    - simpl. rewrite Ascii.eqb_refl. reflexivity. }
  specialize (U c Hc). apply Nat.eqb_eq in U. unfold count_digit in U.
  assert (T : 2 <= List.length
                    (filter (fun b => match get d b with
                                      | Some s => String.eqb s (Str.of_char c)
                                      | None => false
                                      end) u)).
  { apply filter_two with k p; auto.
    - rewrite Gk. apply String.eqb_refl.
    - rewrite Gp. apply String.eqb_refl. }
  rewrite U in T. lia.
Qed.

(** ** The scan of the search driver *)

Lemma scan_spec d : forall m mb n m' mb' n',
  fold_left scan_item d (m, mb, n) = (m', mb', n') ->
  n' = n + solved_items d /\
  ((m' = m /\ mb' = mb /\
    forall k s, In (k, s) d -> String.length s = 1 \/ m <= String.length s) \/
   (m' < m /\
    exists pre b s post,
      d = pre ++ (b, s) :: post /\ mb' = Some b /\
      String.length s = m' /\ String.length s <> 1 /\
      (forall k t, In (k, t) pre -> String.length t = 1 \/ m' < String.length t) /\
      (forall k t, In (k, t) post -> String.length t = 1 \/ m' <= String.length t))).
Proof.
  induction d as [| [k s] d IH]; intros m mb n m' mb' n' H.
  - simpl in H. injection H as <- <- <-. split; [unfold solved_items; simpl; lia |].
    left. repeat split. intros k s [].
  - cbn [fold_left] in H. unfold scan_item at 2 in H.
    unfold solved_items. cbn [filter snd].
    destruct (Nat.eqb_spec (String.length s) 1) as [E1 | E1].
    + destruct (IH _ _ _ _ _ _ H) as [Hn Hm]. split; [cbn [List.length]; unfold solved_items in Hn; lia |].
      destruct Hm as [(-> & -> & Hall) | (Hlt & pre & b & t & post & -> & -> & Ht & Ht1 & Hpre & Hpost)].
      * left. repeat split. intros k0 s0 [E | Hin]; [injection E as <- <-; auto | eauto].
      * right. split; [assumption |].
        exists ((k, s) :: pre), b, t, post. repeat split; auto.
        intros k0 s0 [E | Hin]; [injection E as <- <-; auto | eauto].
    + destruct (Nat.ltb_spec (String.length s) m) as [L | L].
      * destruct (IH _ _ _ _ _ _ H) as [Hn Hm]. split; [unfold solved_items in Hn; lia |].
        right.
        destruct Hm as [(-> & -> & Hall) | (Hlt & pre & b & t & post & -> & -> & Ht & Ht1 & Hpre & Hpost)].
        -- split; [assumption |]. exists [], k, s, d. repeat split; auto.
           intros k0 t0 [].
        -- split; [lia |].
           exists ((k, s) :: pre), b, t, post. repeat split; auto.
           intros k0 s0 [E | Hin]; [injection E as <- <-; right; lia | eauto].
      * destruct (IH _ _ _ _ _ _ H) as [Hn Hm]. split; [unfold solved_items in Hn; lia |].
        destruct Hm as [(-> & -> & Hall) | (Hlt & pre & b & t & post & -> & -> & Ht & Ht1 & Hpre & Hpost)].
        -- left. repeat split. intros k0 s0 [E | Hin]; [injection E as <- <-; auto | eauto].
        -- right. split; [assumption |].
           exists ((k, s) :: pre), b, t, post. repeat split; auto.
           intros k0 s0 [E | Hin]; [injection E as <- <-; right; lia | eauto].
Qed.

Lemma keys_filter_get (P : string -> bool) d :
  NoDup (keys d) ->
  map fst (filter (fun item => P (snd item)) d)
  = filter (fun b => match get d b with Some s => P s | None => false end) (keys d).
Proof.
  unfold keys. induction d as [| [k s] d IH]; intros ND; [reflexivity |].
  inversion ND as [| x l Hnin ND']; subst.
  assert (E : filter (fun b => match get ((k, s) :: d) b with
                               | Some s0 => P s0
                               | None => false
                               end) (map fst d)
              = filter (fun b => match get d b with
                                 | Some s0 => P s0
                                 | None => false
                                 end) (map fst d)).
  { apply filter_ext_in. intros b Hb. simpl.
    destruct (String.eqb_spec k b) as [-> | N]; [contradiction | reflexivity]. }
  change (map fst ((k, s) :: d)) with (k :: map fst d).
  change (filter (fun item => P (snd item)) ((k, s) :: d))
    with (if P s then (k, s) :: filter (fun item => P (snd item)) d
          else filter (fun item => P (snd item)) d).
  cbn [filter]. rewrite E. cbn [get]. rewrite String.eqb_refl.
  destruct (P s); cbn [map fst]; rewrite IH by assumption; reflexivity.
Qed.

Lemma solved_items_count d : NoDup (keys d) -> solved_items d = count_len 1 d.
Proof.
  intros ND. unfold solved_items, count_len.
  rewrite <- (keys_filter_get (fun s => Nat.eqb (String.length s) 1) d ND).
  rewrite length_map. reflexivity.
Qed.

(** ** The measure of the search *)

Lemma list_sum_map_le {A} (f g : A -> nat) l :
  (forall x, In x l -> f x <= g x) -> list_sum (map f l) <= list_sum (map g l).
Proof.
  induction l as [| x l IH]; simpl; intros H; [apply le_n |].
  pose proof (H x (or_introl eq_refl)).
  pose proof (IH (fun y Hy => H y (or_intror Hy))). lia.
Qed.

Lemma list_sum_map_lt {A} (f g : A -> nat) l a :
  (forall x, In x l -> f x <= g x) -> In a l -> f a < g a ->
  list_sum (map f l) < list_sum (map g l).
Proof.
  induction l as [| x l IH]; simpl; intros H Ha L; [contradiction |].
  pose proof (H x (or_introl eq_refl)).
  pose proof (list_sum_map_le f g l (fun y Hy => H y (or_intror Hy))).
  destruct Ha as [-> | Ha]; [lia |].
  pose proof (IH (fun y Hy => H y (or_intror Hy)) Ha L). lia.
Qed.

Lemma weight_narrows d d' : narrows d d' -> weight d' <= weight d.
Proof.
  intros [K G]. unfold weight. rewrite K. apply list_sum_map_le. intros k Hk.
  destruct (keys_get d k Hk) as [s Hs]. destruct (G k s Hs) as (s' & Hs' & Sub).
  rewrite Hs, Hs'. apply StrFacts.subseq_length. assumption.
Qed.

Lemma weight_set d b s c :
  get d b = Some s -> 2 <= String.length s -> weight (set d b (Str.of_char c)) < weight d.
Proof.
  intros G L. pose proof (get_keys d b s G) as Hb. unfold weight.
  rewrite (keys_set d b _ Hb). apply list_sum_map_lt with b; [| assumption |].
  - intros k Hk. destruct (string_dec b k) as [<- | N].
    + rewrite get_set_same, G. simpl. lia.
    + rewrite get_set_other by assumption. apply le_n.
  - rewrite get_set_same, G. simpl. lia.
Qed.

(** ** Properties of candidates along the search *)

Lemma candidates_ok_within d : candidates_ok d = true -> within_digits d.
Proof.
  unfold candidates_ok. intros H k s G. rewrite forallb_forall in H.
  apply StrFacts.is_subseq_sound. apply (H (k, s)). apply get_In. assumption.
Qed.

Lemma at_most_nine_short d : at_most_nine d = true -> short d.
Proof.
  unfold at_most_nine. intros H k s G. rewrite forallb_forall in H.
  apply Nat.leb_le. apply (H (k, s)). apply get_In. assumption.
Qed.

Lemma within_digits_short d : within_digits d -> short d.
Proof.
  intros H k s G. apply (StrFacts.subseq_length s digits). apply H with k. assumption.
Qed.

Lemma within_digits_narrows d d' : narrows d d' -> within_digits d -> within_digits d'.
Proof.
  intros N H k s' G. destruct (narrows_back d d' k s' N G) as (s & Gs & Sub).
  apply StrFacts.subseq_trans with s; [assumption |]. apply H with k. assumption.
Qed.

Lemma short_narrows d d' : narrows d d' -> short d -> short d'.
Proof.
  intros N H k s' G. destruct (narrows_back d d' k s' N G) as (s & Gs & Sub).
  apply StrFacts.subseq_length in Sub. pose proof (H k s Gs). lia.
Qed.

Lemma within_digits_set d b s c :
  within_digits d -> get d b = Some s -> In c (Str.chars s) ->
  within_digits (set d b (Str.of_char c)).
Proof.
  intros H G Hc. apply within_digits_narrows with d; [| assumption].
  apply narrows_set with s; [assumption |].
  apply StrFacts.subseq_of_char. apply StrFacts.contains_In. assumption.
Qed.

Lemma short_set d b c : short d -> short (set d b (Str.of_char c)).
Proof.
  intros H k s G. destruct (string_dec b k) as [<- | N].
  - rewrite get_set_same in G. injection G as <-. simpl. lia.
  - rewrite get_set_other in G by assumption. apply H with k. assumption.
Qed.

Lemma singles_all_single d : NoDup (keys d) -> singles d -> all_single d = true.
Proof.
  intros ND S1. unfold all_single. apply forallb_forall. intros [k s] Hin.
  apply Nat.eqb_eq. apply S1 with k. apply In_get; assumption.
Qed.

Lemma all_single_singles d : all_single d = true -> singles d.
Proof.
  unfold all_single. intros H k s G. rewrite forallb_forall in H.
  apply Nat.eqb_eq. apply (H (k, s)). apply get_In. assumption.
Qed.

(** ** The search driver *)

Lemma search_S fuel d :
  search (S fuel) d =
  (r <- reduce_puzzle (S fuel) d ;;
   if negb (truthy r) then Return None
   else
     match r with
     | None => Return None
     | Some d' =>
         let '(_, min_box, solved_values) := scan d' in
         if Nat.eqb solved_values 81 then Return (Some d')
         else
           match min_box with
           | Some b =>
               choices <- lookup d' b ;;
               try_choices (search fuel) d' b (Str.chars choices)
           | None => KeyError
           end
     end).
Proof. reflexivity. Qed.

Lemma assignment_truthy d : is_assignment d = true -> truthy (Some d) = true.
Proof.
  intros W. apply assignment_length in W. destruct d; [discriminate | reflexivity].
Qed.

(** What a node of the search does once the reducer has succeeded. *)
Lemma search_node fuel d d' m mb n :
  reduce_puzzle (S fuel) d = Return (Some d') -> is_assignment d' = true ->
  scan d' = (m, mb, n) ->
  search (S fuel) d =
  if Nat.eqb n 81 then Return (Some d')
  else match mb with
       | Some b => choices <- lookup d' b ;;
                   try_choices (search fuel) d' b (Str.chars choices)
       | None => KeyError
       end.
Proof.
  intros H W Hs. rewrite search_S, H. cbn [bind].
  rewrite (assignment_truthy d' W). cbn [negb]. rewrite Hs.
  reflexivity.
Qed.

Lemma filter_length_all {A} (f : A -> bool) l :
  (forall x, In x l -> f x = true) -> List.length (filter f l) = List.length l.
Proof.
  induction l as [| x l IH]; simpl; intros H; [reflexivity |].
  rewrite (H x (or_introl eq_refl)). simpl. f_equal. apply IH. auto.
Qed.

(** The scan counts the solved cells and, unless all 81 are solved, leaves
    in [min_box] the first of the cells with the fewest candidates among
    the unsolved ones. *)
Lemma branch_cell d m mb n :
  is_assignment d = true -> short d -> count_len 0 d = 0 ->
  scan d = (m, mb, n) ->
  n = count_len 1 d /\
  (n <> 81 ->
   exists pre b s post,
     d = pre ++ (b, s) :: post /\ mb = Some b /\ get d b = Some s /\
     2 <= String.length s <= 9 /\
     (forall k t, In (k, t) pre -> String.length t = 1 \/ String.length s < String.length t) /\
     (forall k t, In (k, t) post -> String.length t = 1 \/ String.length s <= String.length t)).
Proof.
  intros W Sh Z H. pose proof (assignment_NoDup d W) as ND.
  unfold scan in H. apply scan_spec in H. destruct H as [Hn Hm].
  rewrite (solved_items_count d ND) in Hn. simpl in Hn. split; [assumption |].
  intros N81.
  destruct Hm as [(_ & _ & Hall) | (Hlt & pre & b & s & post & E & -> & Hs & Hs1 & Hpre & Hpost)].
  - exfalso. apply N81. rewrite Hn, <- (solved_items_count d ND).
    unfold solved_items. rewrite filter_length_all.
    + rewrite <- (assignment_length d W). unfold keys. rewrite length_map. reflexivity.
    + intros [k s] Hin. simpl. apply Nat.eqb_eq.
      destruct (Hall k s Hin) as [E | L]; [assumption |].
      pose proof (Sh k s (In_get d k s ND Hin)). lia.
  - assert (G : get d b = Some s).
    { apply In_get; [assumption |]. rewrite E. apply in_elt. }
    exists pre, b, s, post. subst m. repeat split; auto.
    + pose proof (no_empty_get d b s Z G). lia.
    + apply Sh with b. assumption.
Qed.

Lemma try_choices_mono (rec1 rec2 : values -> outcome (option values)) d b cs :
  (forall x r, rec1 x = Return r -> rec2 x = Return r) ->
  forall r, try_choices rec1 d b cs = Return r -> try_choices rec2 d b cs = Return r.
Proof.
  intros Hrec. induction cs as [| c cs IH]; simpl; intros r H.
  - assumption.
  - inv_bind H. rewrite (Hrec _ _ Ha). simpl.
    destruct (truthy a); [assumption | apply IH; assumption].
Qed.

Lemma try_choices_runs (rec : values -> outcome (option values)) d b cs :
  (forall c, In c cs -> exists r, rec (set d b (Str.of_char c)) = Return r) ->
  exists r, try_choices rec d b cs = Return r.
Proof.
  induction cs as [| c cs IH]; simpl; intros H.
  - eauto.
  - destruct (H c (or_introl eq_refl)) as [r Hr]. rewrite Hr. simpl.
    destruct (truthy r); [eauto |]. apply IH. intros c' Hc'. apply H. auto.
Qed.

Lemma try_choices_some (rec : values -> outcome (option values)) d b cs sol :
  try_choices rec d b cs = Return (Some sol) ->
  exists c, In c cs /\ rec (set d b (Str.of_char c)) = Return (Some sol).
Proof.
  induction cs as [| c cs IH]; simpl; intros H.
  - discriminate.
  - inv_bind H. destruct (truthy a).
    + injection H as ->. exists c. auto.
    + destruct (IH H) as (c' & Hc' & Hr). exists c'. auto.
Qed.

Lemma search_mono fuel : forall fuel' d r,
  search fuel d = Return r -> fuel <= fuel' -> search fuel' d = Return r.
Proof.
  induction fuel as [| fuel IH]; intros fuel' d r H L.
  - discriminate.
  - destruct fuel' as [| fuel']; [lia |]. rewrite search_S in *.
    inv_bind H. rewrite (reduce_puzzle_mono (S fuel) (S fuel') d a Ha L). cbn [bind].
    destruct (negb (truthy a)); [assumption |].
    destruct a as [d' |]; [| assumption].
    destruct (scan d') as [[m mb] n].
    destruct (Nat.eqb n 81); [assumption |].
    destruct mb as [b |]; [| discriminate].
    inv_bind H. rewrite Ha0. cbn [bind].
    revert H. apply try_choices_mono. intros x r0 Hx. apply IH; [assumption | lia].
Qed.

(** Every node reached from an assignment with at most nine candidates per
    cell returns, given fuel for the candidates that are left. *)
Lemma search_total fuel : forall d,
  is_assignment d = true -> short d -> weight d + 82 <= fuel ->
  exists r, search fuel d = Return r.
Proof.
  induction fuel as [| fuel IH]; intros d W Sh L; [lia |].
  destruct (reduce_puzzle_terminates d W) as [r0 Hr0].
  specialize (Hr0 (S fuel) ltac:(lia)).
  pose proof (reduce_puzzle_spec _ _ _ Hr0) as Spec.
  destruct r0 as [d' |].
  - destruct (reducer_spec_some d _ Spec d' eq_refl) as (N & Z & _).
    pose proof (assignment_narrows _ _ N W) as W'.
    pose proof (short_narrows _ _ N Sh) as Sh'.
    destruct (scan d') as [[m mb] n] eqn:Hs.
    rewrite (search_node fuel d d' m mb n Hr0 W' Hs).
    destruct (branch_cell d' m mb n W' Sh' Z Hs) as [Hn Hb].
    destruct (Nat.eqb_spec n 81) as [E | E]; [eauto |].
    destruct (Hb E) as (pre & b & s & post & _ & -> & G & Len & _).
    unfold lookup. rewrite G. cbn [bind].
    apply try_choices_runs. intros c _. apply IH.
    + apply assignment_keys with d'; [| assumption].
      apply keys_set. apply get_keys with s. assumption.
    + apply short_set. assumption.
    + pose proof (weight_set d' b s c G (proj1 Len)).
      pose proof (weight_narrows d d' N). lia.
  - exists None. rewrite search_S, Hr0. reflexivity.
Qed.

(** Whatever the search returns as a solution is a complete grid that
    satisfies the 29 units. *)
Lemma search_sound fuel : forall d sol,
  is_assignment d = true -> within_digits d ->
  search fuel d = Return (Some sol) -> solved_grid sol = true.
Proof.
  induction fuel as [| fuel IH]; intros d sol W WD H; [discriminate |].
  pose proof H as H0. rewrite search_S in H0. inv_bind H0.
  pose proof (reduce_puzzle_spec _ _ _ Ha) as Spec.
  destruct a as [d' |]; [| discriminate].
  clear H0.
  destruct (reducer_spec_some d _ Spec d' eq_refl) as (N & Z & _).
  pose proof (assignment_narrows _ _ N W) as W'.
  pose proof (within_digits_narrows _ _ N WD) as WD'.
  destruct (scan d') as [[m mb] n] eqn:Hs.
  rewrite (search_node fuel d d' m mb n Ha W' Hs) in H.
  destruct (branch_cell d' m mb n W' (within_digits_short d' WD') Z Hs) as [Hn Hb].
  destruct (Nat.eqb_spec n 81) as [E | E].
  - injection H as <-.
    destruct (reduced_solved_conflict_free d d' W Spec) as [S1 CF]; [congruence |].
    unfold solved_grid. rewrite W'.
    rewrite (singles_all_single d' (assignment_NoDup d' W') S1).
    rewrite (units_ok_intro d' (assignment_covers d' W') S1 WD' CF). reflexivity.
  - destruct (Hb E) as (pre & b & s & post & _ & -> & G & Len & _).
    unfold lookup in H. rewrite G in H. cbn [bind] in H.
    apply try_choices_some in H. destruct H as (c & Hc & Hr).
    apply IH with (set d' b (Str.of_char c)); [| | assumption].
    + apply assignment_keys with d'; [| assumption].
      apply keys_set. apply get_keys with s. assumption.
    + apply within_digits_set with s; assumption.
Qed.

(** ** The initial assignment *)

Lemma combine_snd {A B} (l1 : list A) : forall (l2 : list B),
  List.length l2 <= List.length l1 -> map snd (combine l1 l2) = l2.
Proof.
  induction l1 as [| a l1 IH]; intros [| b l2]; simpl; intros L; try reflexivity.
  - lia.
  - f_equal. apply IH. lia.
Qed.

Lemma keys_grid2values grid :
  String.length grid = 81 -> keys (grid2values grid) = boxes.
Proof.
  intros L. unfold keys, grid2values. rewrite map_map.
  rewrite <- (combine_snd (Str.chars grid) boxes) at 2.
  - apply map_ext. intros [val key]. reflexivity.
  - rewrite StrFacts.length_chars, L, boxes_length. apply le_n.
Qed.

Lemma grid2values_assignment grid :
  String.length grid = 81 -> is_assignment (grid2values grid) = true.
Proof.
  intros L. unfold is_assignment. rewrite (keys_grid2values grid L).
  vm_compute. reflexivity.
Qed.

Lemma is_subseq_of_char c s :
  Str.contains c s = true -> is_subseq (Str.of_char c) s = true.
Proof.
  induction s as [| x s IH]; simpl; intros E; [discriminate |].
  rewrite Ascii.eqb_sym. destruct (Ascii.eqb x c).
  - destruct s; reflexivity.
  - apply IH. assumption.
Qed.

Lemma grid2values_candidates grid : candidates_ok (grid2values grid) = true.
Proof.
  unfold candidates_ok, grid2values. apply forallb_forall. intros item Hin.
  apply in_map_iff in Hin. destruct Hin as ([val key] & <- & _). cbn [snd].
  destruct (Str.contains val "123456789") eqn:E; [| reflexivity].
  apply is_subseq_of_char. assumption.
Qed.

Lemma weight_bound d : short d -> weight d <= 9 * List.length (keys d).
Proof.
  intros Sh. unfold weight.
  assert (H : forall l, incl l (keys d) ->
                        list_sum (map (fun k => match get d k with
                                                | Some s => String.length s
                                                | None => 0
                                                end) l) <= 9 * List.length l).
  { induction l as [| k l IH]; simpl; intros Hl; [lia |].
    destruct (keys_get d k (Hl k (or_introl eq_refl))) as [s Hs]. rewrite Hs.
    pose proof (Sh k s Hs). pose proof (IH (fun x Hx => Hl x (or_intror Hx))). lia. }
  apply H. apply incl_refl.
Qed.

(** With fuel 811 the search returns on every assignment with at most
    nine candidates per cell, and fuel beyond that changes nothing. *)
Lemma search_terminates d :
  is_assignment d = true -> short d ->
  exists r, forall fuel, 811 <= fuel -> search fuel d = Return r.
Proof.
  intros W Sh. pose proof (weight_bound d Sh) as B.
  rewrite (assignment_length d W) in B.
  destruct (search_total 811 d W Sh) as [r Hr]; [lia |].
  exists r. intros fuel L. apply search_mono with 811; assumption.
Qed.

Lemma search_some_assignment fuel : forall d sol,
  is_assignment d = true -> search fuel d = Return (Some sol) ->
  is_assignment sol = true.
Proof.
  induction fuel as [| fuel IH]; intros d sol W H; [discriminate |].
  rewrite search_S in H. inv_bind H.
  pose proof (reduce_puzzle_spec _ _ _ Ha) as Spec.
  destruct a as [d' |]; [| discriminate].
  destruct (reducer_spec_some d _ Spec d' eq_refl) as (N & _ & _).
  pose proof (assignment_narrows _ _ N W) as W'.
  rewrite (assignment_truthy d' W') in H. cbn [negb] in H.
  destruct (scan d') as [[m mb] n].
  destruct (Nat.eqb n 81); [injection H as <-; assumption |].
  destruct mb as [b |]; [| discriminate]. inv_bind H.
  apply try_choices_some in H. destruct H as (c & _ & Hr).
  apply IH with (set d' b (Str.of_char c)); [| assumption].
  apply assignment_keys with d'; [| assumption].
  apply keys_set. apply lookup_Return in Ha0. apply get_keys with a. assumption.
Qed.

Lemma grid2values_at_most_nine grid : at_most_nine (grid2values grid) = true.
Proof.
  unfold at_most_nine, grid2values. apply forallb_forall. intros item Hin.
  apply in_map_iff in Hin. destruct Hin as ([val key] & <- & _). cbn [snd].
  destruct (Str.contains val "123456789"); reflexivity.
Qed.

(** ** Branches of the search and solved grids *)

Lemma try_choices_first fuel d b cs : forall res,
  is_assignment d = true -> In b (keys d) ->
  try_choices (search fuel) d b cs = Return res ->
  first_success search_returns d b cs res.
Proof.
  induction cs as [| c cs IH]; simpl; intros res W Hb H.
  - injection H as <-. constructor.
  - inv_bind H.
    assert (R : search_returns (set d b (Str.of_char c)) a).
    { exists fuel. intros fuel' L. apply search_mono with fuel; assumption. }
    destruct a as [sol |].
    + assert (Ws : is_assignment sol = true).
      { apply search_some_assignment with fuel (set d b (Str.of_char c)); [| assumption].
        apply assignment_keys with d; [| assumption]. apply keys_set. assumption. }
      rewrite (assignment_truthy sol Ws) in H. injection H as <-.
      apply first_success_hit. assumption.
    + simpl in H. apply first_success_miss; [assumption |]. apply IH; assumption.
Qed.

Lemma filter_length_none {A} (f : A -> bool) l :
  (forall x, In x l -> f x = false) -> List.length (filter f l) = 0.
Proof.
  induction l as [| x l IH]; simpl; intros H; [reflexivity |].
  rewrite (H x (or_introl eq_refl)). apply IH. auto.
Qed.

Lemma singles_counts d :
  singles d -> count_len 0 d = 0 /\ count_len 1 d = List.length (keys d).
Proof.
  intros S1. unfold count_len. split.
  - apply filter_length_none. intros k Hk. destruct (keys_get d k Hk) as [s Hs].
    rewrite Hs, (S1 k s Hs). reflexivity.
  - apply filter_length_all. intros k Hk. destruct (keys_get d k Hk) as [s Hs].
    rewrite Hs, (S1 k s Hs). reflexivity.
Qed.

Lemma grid2values_given grid :
  forallb (fun c => Str.contains c digits) (Str.chars grid) = true ->
  singles (grid2values grid).
Proof.
  intros H k s G. apply get_In in G. unfold grid2values in G.
  apply in_map_iff in G. destruct G as ([val key] & E & Hin).
  apply (f_equal snd) in E. cbv beta iota in E. cbn [snd] in E. subst s.
  apply in_combine_l in Hin. rewrite forallb_forall in H.
  specialize (H val Hin). cbv beta in H. unfold digits in H.
  rewrite H. reflexivity.
Qed.

(** ** A second pass of [eliminate] *)

(** A cell that was already fixed when its turn came has its digit gone
    from all its peers at the end of the pass. *)
Lemma eliminate_propagated ks : forall d e,
  foldM eliminate_item ks d = Return e ->
  forall k c p, In k ks -> get e k = Some (Str.of_char c) ->
                (forall s, get d k = Some s -> String.length s = 1) ->
                In p (peers k) ->
                exists s, get e p = Some s /\ Str.contains c s = false.
Proof.
  induction ks as [| k0 ks IH]; simpl; intros d e H k c p Hk Ge Hd Hp.
  - contradiction.
  - inv_bind H. rename a into d1.
    pose proof (eliminate_item_narrows _ _ _ Ha) as N1.
    pose proof (eliminate_items_narrows _ _ _ H) as N2.
    destruct Hk as [-> | Hk].
    + unfold eliminate_item in Ha. inv_bind Ha. rename a into v.
      apply lookup_Return in Ha0.
      destruct (narrows_back _ _ k _ (narrows_trans _ _ _ N1 N2) Ge) as (v' & Gv & Sub).
      rewrite Ha0 in Gv. injection Gv as <-.
      pose proof (StrFacts.subseq_same_length _ _ Sub) as E. simpl in E.
      rewrite (Hd v Ha0) in E. specialize (E eq_refl). subst v. simpl in Ha.
      destruct (discard_pass_absent c _ _ _ p Ha Hp) as (s1 & G1 & A1).
      destruct N2 as [_ N2]. destruct (N2 p s1 G1) as (s2 & G2 & Sub2).
      exists s2. split; [assumption |].
      apply StrFacts.subseq_absent with s1; assumption.
    + apply IH with d1 k; auto.
      intros s Gs. destruct (narrows_back _ _ k _ N1 Gs) as (s0 & G0 & Sub0).
      destruct N2 as [_ N2]. destruct (N2 k s Gs) as (s2 & G2 & Sub2).
      rewrite Ge in G2. injection G2 as <-.
      apply StrFacts.subseq_length in Sub0. apply StrFacts.subseq_length in Sub2.
      simpl in Sub2. pose proof (Hd s0 G0). lia.
Qed.

(** When the digit of every fixed cell is absent from its peers, a pass of
    [eliminate] changes nothing. *)
Lemma eliminate_fixpoint ks e :
  incl ks (keys e) ->
  (forall k c p, In k ks -> get e k = Some (Str.of_char c) -> In p (peers k) ->
                 exists s, get e p = Some s /\ Str.contains c s = false) ->
  foldM eliminate_item ks e = Return e.
Proof.
  intros Hks H. apply foldM_noop. intros k Hk.
  unfold eliminate_item. destruct (keys_get e k (Hks k Hk)) as [v Hv].
  unfold lookup. rewrite Hv. cbn [bind].
  destruct v as [| c [| x rest]]; try reflexivity.
  apply foldM_noop. intros p Hp.
  destruct (H k c p Hk Hv Hp) as (s & Gs & A).
  unfold discard, lookup. rewrite Gs. cbn [bind].
  rewrite (StrFacts.replace_empty_id c s A), (set_same e p s Gs). reflexivity.
Qed.

(** ** The order of a set of peers *)

Lemma set_set_comm d p q s t :
  p <> q -> In p (keys d) -> In q (keys d) ->
  set (set d p s) q t = set (set d q t) p s.
Proof.
  intros N. induction d as [| [k v] d IH]; simpl; intros Hp Hq.
  - contradiction.
  - destruct (String.eqb_spec k p) as [Ep | Np].
    + subst k. destruct (String.eqb_spec p q) as [Eq | Nq]; [contradiction |].
      simpl. rewrite String.eqb_refl.
      destruct (String.eqb_spec p q); [contradiction | reflexivity].
    + destruct (String.eqb_spec k q) as [Eq | Nq]; simpl.
      * subst k. rewrite String.eqb_refl.
        destruct (String.eqb_spec q p); [subst; contradiction | reflexivity].
      * destruct (String.eqb_spec k p); [contradiction |].
        destruct (String.eqb_spec k q); [contradiction |].
        f_equal. apply IH.
        -- destruct Hp; [contradiction | assumption].
        -- destruct Hq; [contradiction | assumption].
Qed.

Lemma discard_swap c d p q :
  (x <- discard c d p ;; discard c x q) = (x <- discard c d q ;; discard c x p).
Proof.
  destruct (string_dec p q) as [-> | N]; [reflexivity |].
  unfold discard, lookup.
  destruct (get d p) as [s |] eqn:Gp, (get d q) as [t |] eqn:Gq; cbn [bind].
  - rewrite (get_set_other d p q _ N), Gq.
    rewrite (get_set_other d q p _ (not_eq_sym N)), Gp. cbn [bind].
    rewrite set_set_comm; [reflexivity | assumption | |].
    + apply get_keys with s. assumption.
    + apply get_keys with t. assumption.
  - rewrite (get_set_other d p q _ N), Gq. reflexivity.
  - rewrite (get_set_other d q p _ (not_eq_sym N)), Gp. reflexivity.
  - reflexivity.
Qed.

(** Visiting the peers of a cell in another order gives the same result, so
    listing the set [peers[k]] in a fixed order loses nothing. *)
Lemma discard_perm c ps ps' :
  Permutation ps ps' -> forall d, foldM (discard c) ps d = foldM (discard c) ps' d.
Proof.
  induction 1 as [| p ps ps' HP IH | p q ps | ps1 ps2 ps3 H12 IH12 H23 IH23];
    intros d.
  - reflexivity.
  - simpl. destruct (discard c d p); simpl; auto.
  - transitivity (y <- (x <- discard c d q ;; discard c x p) ;; foldM (discard c) ps y).
    { symmetry.
      exact (bind_assoc (discard c d q) (fun x => discard c x p) (foldM (discard c) ps)). }
    rewrite discard_swap.
    exact (bind_assoc (discard c d p) (fun x => discard c x q) (foldM (discard c) ps)).
  - rewrite IH12. apply IH23.
Qed.

(** ** Naked twins *)

Lemma discard_get_other c d cell d' k :
  discard c d cell = Return d' -> cell <> k -> get d' k = get d k.
Proof.
  intros H N. apply discard_inv in H. destruct H as (s & _ & ->).
  apply get_set_other. assumption.
Qed.

Lemma strip_cell_absent cell cs : forall d d' digit,
  foldM (fun d digit => discard digit d cell) cs d = Return d' -> In digit cs ->
  exists s, get d' cell = Some s /\ Str.contains digit s = false.
Proof.
  induction cs as [| c cs IH]; simpl; intros d d' digit H Hin.
  - contradiction.
  - inv_bind H. destruct Hin as [-> | Hin]; [| eauto].
    apply discard_inv in Ha. destruct Ha as (s & Hs & ->).
    assert (N : narrows (set d cell (Str.replace_empty digit s)) d').
    { revert H. apply foldM_narrows. intros d0 x d0' _. apply discard_narrows. }
    destruct N as [_ G]. destruct (G cell _ (get_set_same d cell _)) as (s' & Hs' & Sub).
    exists s'. split; [assumption |].
    apply StrFacts.subseq_absent with (Str.replace_empty digit s); [assumption |].
    apply StrFacts.replace_empty_absent.
Qed.

Lemma strip_cells_absent t cells : forall d d' cell digit,
  foldM (fun d cell => foldM (fun d digit => discard digit d cell) (Str.chars t) d)
        cells d = Return d' ->
  In cell cells -> In digit (Str.chars t) ->
  exists s, get d' cell = Some s /\ Str.contains digit s = false.
Proof.
  induction cells as [| x cells IH]; simpl; intros d d' cell digit H Hc Hd.
  - contradiction.
  - inv_bind H. destruct Hc as [-> | Hc]; [| eauto].
    destruct (strip_cell_absent cell _ _ _ digit Ha Hd) as (s1 & G1 & A1).
    assert (N : narrows a d').
    { revert H. apply foldM_narrows. intros d0 y d0' _.
      apply foldM_narrows. intros d1 c d1' _. apply discard_narrows. }
    destruct N as [_ G]. destruct (G cell s1 G1) as (s2 & G2 & Sub).
    exists s2. split; [assumption |].
    apply StrFacts.subseq_absent with s1; assumption.
Qed.

Lemma strip_twin_keeps unit bi bj t k : forall d d',
  strip_twin unit bi bj t d = Return d' -> k = bi \/ k = bj -> get d' k = get d k.
Proof.
  intros d d' H Hk. revert d d' H. unfold strip_twin.
  apply (foldM_preorder (fun d d' => get d' k = get d k)); try congruence.
  intros d cell d' Hcell. apply filter_In in Hcell. destruct Hcell as [_ Hcell].
  apply negb_true_iff, orb_false_iff in Hcell. destruct Hcell as [Ni Nj].
  apply String.eqb_neq in Ni, Nj. revert d d'.
  apply (foldM_preorder (fun d d' => get d' k = get d k)); try congruence.
  intros d c d' _ H. apply discard_get_other with c cell; [assumption |].
  destruct Hk; congruence.
Qed.

(** Processing a twin pair: the two twins keep their candidates; every
    other cell of the unit loses the digits of the pair. *)
Lemma strip_twin_spec unit bi bj t d d' :
  strip_twin unit bi bj t d = Return d' ->
  get d' bi = get d bi /\ get d' bj = get d bj /\
  forall cell digit, In cell unit -> cell <> bi -> cell <> bj ->
                     In digit (Str.chars t) ->
                     exists s, get d' cell = Some s /\ Str.contains digit s = false.
Proof.
  intros H. split; [apply (strip_twin_keeps unit bi bj t bi d d' H); auto |].
  split; [apply (strip_twin_keeps unit bi bj t bj d d' H); auto |].
  intros cell digit Hc Ni Nj Hd. unfold strip_twin in H.
  apply (strip_cells_absent t _ d d' cell digit H); [| assumption].
  apply filter_In. split; [assumption |].
  apply negb_true_iff, orb_false_iff. split; apply String.eqb_neq; assumption.
Qed.

Lemma possible_twins_facts d u : forall pt,
  possible_twins d u = Return pt ->
  (forall b t, In (b, t) pt -> In b u /\ get d b = Some t /\ String.length t = 2) /\
  (NoDup u -> NoDup (map fst pt)).
Proof.
  induction u as [| x u IH]; simpl; intros pt H.
  - injection H as <-. split; [intros b t [] | intros _; constructor].
  - inv_bind H. apply lookup_Return in Ha. inv_bind H. injection H as <-.
    destruct (IH a0 Ha0) as [F ND].
    destruct (Nat.eqb_spec (String.length a) 2) as [E | E].
    + split.
      * intros b t [Eq | Hin].
        -- injection Eq as <- <-. auto.
        -- destruct (F b t Hin) as (? & ? & ?). auto.
      * intros NDu. inversion NDu as [| y l Hnin NDu']; subst. simpl. constructor.
        -- intros Hin. apply in_map_iff in Hin. destruct Hin as ([b t] & Eq & Hin).
           simpl in Eq. subst b. apply Hnin. apply (F x t Hin).
        -- apply ND. assumption.
    + split.
      * intros b t Hin. destruct (F b t Hin) as (? & ? & ?). auto.
      * intros NDu. inversion NDu; subst. apply ND. assumption.
Qed.

(** The double loop over the pairs reaches every pair once, in some state
    [da] that comes from the state at the start of the unit by narrowing. *)
Lemma twin_pairs_split unit bi bj t l2 l3 : forall l1 d0 d1,
  twin_pairs unit (l1 ++ (bi, t) :: l2 ++ (bj, t) :: l3) d0 = Return d1 ->
  exists da db, narrows d0 da /\ strip_twin unit bi bj t da = Return db /\
                narrows db d1.
Proof.
  induction l1 as [| x l1 IH]; intros d0 d1 H.
  - cbn [app twin_pairs] in H. inv_bind H. rewrite foldM_app in Ha. inv_bind Ha.
    cbn [foldM] in Ha. inv_bind Ha. unfold twins_with in Ha1. cbn [fst snd] in Ha1.
    rewrite String.eqb_refl in Ha1.
    exists a0, a1. split; [| split; [assumption |]].
    + revert Ha0. apply foldM_narrows. intros d2 pj d2' _. apply twins_with_narrows.
    + apply narrows_trans with a.
      * revert Ha. apply foldM_narrows. intros d2 pj d2' _. apply twins_with_narrows.
      * apply twin_pairs_narrows with unit (l2 ++ (bj, t) :: l3). assumption.
  - cbn [app twin_pairs] in H. inv_bind H.
    destruct (IH a d1 H) as (da & db & N1 & Hs & N2).
    exists da, db. split; [| auto].
    apply narrows_trans with a; [| assumption].
    revert Ha. apply foldM_narrows. intros d2 pj d2' _. apply twins_with_narrows.
Qed.

Lemma crossing_twins_detected : detected crossing_twins row_A "A1" "A5" "12".
Proof.
  exists [], (tl unitlist), crossing_twins, [("A1", "12"); ("A5", "12")], [], [], [].
  split; [vm_compute; reflexivity |].
  split; [reflexivity |].
  split; [vm_compute; reflexivity | reflexivity].
Defined.

Lemma search_with_naked_twins_mono fuel : forall fuel' d r,
  search_with_naked_twins fuel d = Return r -> fuel <= fuel' ->
  search_with_naked_twins fuel' d = Return r.
Proof.
  induction fuel as [| fuel IH]; intros fuel' d r H L.
  - discriminate.
  - destruct fuel' as [| fuel']; [lia |].
    cbn [search_with_naked_twins] in *. inv_bind H.
    rewrite (reduce_puzzle_mono (S fuel) (S fuel') d a Ha L). cbn [bind].
    destruct a as [d0 |]; [| assumption].
    destruct (naked_twins d0) as [d' | |]; cbn [bind] in *; try discriminate.
    destruct (scan d') as [[m mb] n].
    destruct (Nat.eqb n 81); [assumption |].
    destruct mb as [b |]; [| discriminate].
    destruct (lookup d' b) as [choices | |]; cbn [bind] in *; try discriminate.
    revert H. apply try_choices_mono. intros x r0 Hx. apply IH; [assumption | lia].
Qed.

(** ** Scenarios *)

(** The canonical diagonal puzzle is solved, and its solution satisfies the
    29 units. *)
Example diag_sudoku_is_solved :
  solve 811 diag_sudoku_grid = Return (Some (grid2values diag_sudoku_solved)) /\
  solved_grid (grid2values diag_sudoku_solved) = true.
Proof. split; vm_compute; reflexivity. Qed.

(** Two equal givens in one row: no solution. *)
Example repeated_given_fails :
  solve 811 "22............62....1....7...6..8...3...9...7...6..4...4....8....52.............3"
  = Return None.
Proof. vm_compute. reflexivity. Qed.

(** * The claims *)

(** C1: on every 81-character grid, [solve] returns, and what it returns is
    either [False] or an assignment in which each of the 81 cells holds
    exactly one digit and each of the 29 units holds every digit 1-9
    exactly once. *)
Theorem C1_solve_returns_solved_grid_or_False grid :
  String.length grid = 81 ->
  exists r, (forall fuel, 811 <= fuel -> solve fuel grid = Return r) /\
            (r = None \/ exists sol, r = Some sol /\ solved_grid sol = true).
Proof.
  intros L. pose proof (grid2values_assignment grid L) as W.
  pose proof (candidates_ok_within _ (grid2values_candidates grid)) as WD.
  destruct (search_terminates _ W (within_digits_short _ WD)) as [r Hr].
  exists r. split; [exact Hr |].
  destruct r as [sol |]; [right | left; reflexivity].
  exists sol. split; [reflexivity |].
  apply search_sound with 811 (grid2values grid); auto.
Qed.

Lemma C1_witness :
  String.length diag_sudoku_grid = 81 /\
  exists r, (forall fuel, 811 <= fuel -> solve fuel diag_sudoku_grid = Return r) /\
            (r = None \/ exists sol, r = Some sol /\ solved_grid sol = true).
Proof.
  split; [reflexivity |].
  apply (C1_solve_returns_solved_grid_or_False diag_sudoku_grid). reflexivity.
Defined.

(** C2: [search] does not apply Naked-Twins.  On [open_grid] it returns
    the solution [found_by_search], with 8 in A2, while the driver of the
    specification, which applies [naked_twins] at every node after the
    reducer, returns [found_with_twins], with 5 in A2. *)
Theorem C2_search_does_not_apply_naked_twins :
  (forall fuel, 811 <= fuel ->
     search fuel (grid2values open_grid)
     = Return (Some (grid2values found_by_search))) /\
  (forall fuel, 811 <= fuel ->
     search_with_naked_twins fuel (grid2values open_grid)
     = Return (Some (grid2values found_with_twins))) /\
  get (grid2values found_by_search) "A2" = Some "8" /\
  get (grid2values found_with_twins) "A2" = Some "5".
Proof.
  split; [| split; [| split; vm_compute; reflexivity]].
  - intros fuel L. apply search_mono with 811; [| assumption].
    vm_compute. reflexivity.
  - intros fuel L. apply search_with_naked_twins_mono with 811; [| assumption].
    vm_compute. reflexivity.
Qed.

(** C3: [reduce_puzzle] terminates on every assignment of the 81 cells (82
    turns of its loop are enough), and a turn of the loop that ends without
    an empty cell does not lower the number of solved cells, which never
    exceeds 81. *)
Theorem C3_reduce_puzzle_terminates d :
  is_assignment d = true ->
  (exists r, forall fuel, 82 <= fuel -> reduce_puzzle fuel d = Return r) /\
  (exists d', reduce_pass d = Return d' /\ is_assignment d' = true /\
              (count_len 0 d' = 0 ->
               count_len 1 d <= count_len 1 d' /\ count_len 1 d' <= 81)).
Proof.
  intros W. split; [apply reduce_puzzle_terminates; assumption |].
  destruct (reduce_pass_total d W) as (d' & H & N).
  pose proof (assignment_narrows _ _ N W) as W'.
  exists d'. split; [assumption |]. split; [assumption |].
  intros Z. split.
  - apply solved_mono; assumption.
  - rewrite <- (assignment_length d' W'). apply count_len_bound.
Qed.

Lemma C3_witness :
  is_assignment (grid2values diag_sudoku_grid) = true /\
  (exists r, forall fuel, 82 <= fuel ->
             reduce_puzzle fuel (grid2values diag_sudoku_grid) = Return r) /\
  (exists d', reduce_pass (grid2values diag_sudoku_grid) = Return d' /\
              is_assignment d' = true /\
              (count_len 0 d' = 0 ->
               count_len 1 (grid2values diag_sudoku_grid) <= count_len 1 d' /\
               count_len 1 d' <= 81)).
Proof.
  split; [reflexivity |].
  apply (C3_reduce_puzzle_terminates (grid2values diag_sudoku_grid)). reflexivity.
Defined.

(** C4: [reduce_puzzle] returns what the reducer of the specification
    describes: Eliminate then Only-Choice, again and again until a pass
    leaves the number of solved cells as it was; the result is [False] as
    soon as a pass ends with an empty cell (in particular whenever the
    input has one), and an assignment that is returned has no empty
    cell. *)
Theorem C4_reduce_puzzle_meets_reducer_spec d :
  is_assignment d = true ->
  exists r, (forall fuel, 82 <= fuel -> reduce_puzzle fuel d = Return r) /\
            reducer_spec d r /\
            (forall d', r = Some d' -> count_len 0 d' = 0) /\
            (count_len 0 d <> 0 -> r = None).
Proof.
  intros W. destruct (reduce_puzzle_terminates d W) as [r Hr].
  pose proof (reduce_puzzle_spec _ _ _ (Hr 82 (le_n 82))) as Spec.
  exists r. split; [assumption |]. split; [assumption |]. split.
  - intros d' ->. apply (reducer_spec_some d _ Spec d' eq_refl).
  - intros NZ. destruct r as [d' |]; [exfalso | reflexivity].
    destruct (reducer_spec_some d _ Spec d' eq_refl) as (N & Z & _).
    apply NZ. apply no_empty_back with d'; assumption.
Qed.

Lemma C4_witness :
  is_assignment (grid2values diag_sudoku_grid) = true /\
  exists r, (forall fuel, 82 <= fuel ->
             reduce_puzzle fuel (grid2values diag_sudoku_grid) = Return r) /\
            reducer_spec (grid2values diag_sudoku_grid) r /\
            (forall d', r = Some d' -> count_len 0 d' = 0) /\
            (count_len 0 (grid2values diag_sudoku_grid) <> 0 -> r = None).
Proof.
  split; [reflexivity |].
  apply (C4_reduce_puzzle_meets_reducer_spec (grid2values diag_sudoku_grid)).
  reflexivity.
Defined.

(** C5 (as amended): a second call of [eliminate] changes nothing when the
    first call fixed no new cell, that is when every cell that holds a
    single digit after the first call held a single digit before it. *)
Theorem C5_eliminate_twice_without_new_fixed_cells d e :
  eliminate d = Return e -> new_singles d e = [] -> eliminate e = Return e.
Proof.
  intros H New. pose proof (eliminate_narrows _ _ H) as N.
  unfold eliminate. apply eliminate_fixpoint; [apply incl_refl |].
  intros k c p Hk Ge Hp. unfold eliminate in H.
  apply (eliminate_propagated (keys d) d e H k c p); auto.
  - destruct N as [K _]. rewrite <- K. assumption.
  - intros s Gs.
    assert (F : forall x, In x (keys e) ->
                match get e x, get d x with
                | Some s', Some s0 =>
                    Nat.eqb (String.length s') 1 && negb (Nat.eqb (String.length s0) 1)
                | _, _ => false
                end = false).
    { apply filter_length_zero. unfold new_singles in New. rewrite New. reflexivity. }
    specialize (F k Hk). rewrite Ge, Gs in F. simpl in F.
    apply negb_false_iff in F. apply Nat.eqb_eq. assumption.
Qed.

Lemma C5_witness :
  eliminate (grid2values diag_sudoku_grid)
  = Return (returned [] (eliminate (grid2values diag_sudoku_grid))) /\
  new_singles (grid2values diag_sudoku_grid)
              (returned [] (eliminate (grid2values diag_sudoku_grid))) = [] /\
  eliminate (returned [] (eliminate (grid2values diag_sudoku_grid)))
  = Return (returned [] (eliminate (grid2values diag_sudoku_grid))).
Proof.
  assert (H : eliminate (grid2values diag_sudoku_grid)
              = Return (returned [] (eliminate (grid2values diag_sudoku_grid))))
    by (vm_compute; reflexivity).
  assert (New : new_singles (grid2values diag_sudoku_grid)
                  (returned [] (eliminate (grid2values diag_sudoku_grid))) = [])
    by (vm_compute; reflexivity).
  split; [exact H |]. split; [exact New |].
  exact (C5_eliminate_twice_without_new_fixed_cells _ _ H New).
Defined.

(** C5 (as stated) fails: on the grid whose first row is ".23456789" the
    first call of [eliminate] leaves A1 with the single candidate 1 after
    A1 had its turn, so B1 still has the candidate 1; the second call
    removes it. *)
Lemma C5_counterexample :
  exists e1 e2,
    eliminate (grid2values row_grid) = Return e1 /\
    eliminate e1 = Return e2 /\
    get e1 "B1" = Some "1456789" /\ get e2 "B1" = Some "456789" /\
    e2 <> e1.
Proof.
  set (e1 := returned [] (eliminate (grid2values row_grid))).
  set (e2 := returned [] (eliminate e1)).
  assert (G1 : get e1 "B1" = Some "1456789") by (vm_compute; reflexivity).
  assert (G2 : get e2 "B1" = Some "456789") by (vm_compute; reflexivity).
  exists e1, e2.
  split; [vm_compute; reflexivity |]. split; [vm_compute; reflexivity |].
  split; [assumption |]. split; [assumption |].
  intros E. rewrite E, G1 in G2. discriminate G2.
Qed.

(** C6 (as amended): for every twin pair that [naked_twins] detects in a
    unit (two different cells of the unit, both with the same two
    candidates when the loop reaches the unit), processing the pair leaves
    the candidates of the two twins as they are and removes both digits of
    the pair from every other cell of the unit, where they are still absent
    when [naked_twins] returns. *)
Theorem C6_twin_pair_processing d d' unit bi bj t :
  naked_twins d = Return d' -> detected d unit bi bj t ->
  exists d0 da db,
    narrows d d0 /\ In bi unit /\ In bj unit /\ bi <> bj /\
    get d0 bi = Some t /\ get d0 bj = Some t /\ String.length t = 2 /\
    narrows d0 da /\ strip_twin unit bi bj t da = Return db /\ narrows db d' /\
    get db bi = get da bi /\ get db bj = get da bj /\
    forall cell digit, In cell unit -> cell <> bi -> cell <> bj ->
                       In digit (Str.chars t) ->
                       (exists s, get db cell = Some s /\ Str.contains digit s = false) /\
                       (exists s, get d' cell = Some s /\ Str.contains digit s = false).
Proof.
  intros H (before & after & d0 & pt & l1 & l2 & l3 & Hu & Hbefore & Hpt & Ept).
  unfold naked_twins in H. rewrite Hu, foldM_app, Hbefore in H. cbn [bind foldM] in H.
  inv_bind H. rename a into d1. unfold naked_twins_unit in Ha.
  rewrite Hpt in Ha. cbn [bind] in Ha. subst pt.
  destruct (twin_pairs_split unit bi bj t l2 l3 l1 d0 d1 Ha) as (da & db & N1 & Hs & N2).
  assert (N3 : narrows db d').
  { apply narrows_trans with d1; [assumption |].
    apply naked_twins_units_narrows with after. assumption. }
  destruct (possible_twins_facts d0 unit _ Hpt) as [F ND].
  assert (Hunit : In unit unitlist) by (rewrite Hu; apply in_elt).
  destruct (unit_facts unit Hunit) as (NDu & _ & _).
  destruct (F bi t) as (Hbi & Gbi & Len); [apply in_elt |].
  destruct (F bj t) as (Hbj & Gbj & _).
  { apply in_or_app. right. right. apply in_elt. }
  assert (Nij : bi <> bj).
  { specialize (ND NDu). rewrite map_app in ND. cbn [map fst] in ND.
    apply NoDup_remove_2 in ND. intros ->. apply ND.
    apply in_or_app. right. rewrite map_app. apply in_or_app. right. left. reflexivity. }
  destruct (strip_twin_spec unit bi bj t da db Hs) as (Ki & Kj & Rest).
  exists d0, da, db.
  split; [apply naked_twins_units_narrows with before; assumption |].
  repeat (split; [assumption |]).
  intros cell digit Hc Ni Nj Hd.
  destruct (Rest cell digit Hc Ni Nj Hd) as (s & Gs & A).
  split; [eauto |].
  destruct N3 as [_ G3]. destruct (G3 cell s Gs) as (s' & Gs' & Sub).
  exists s'. split; [assumption |]. apply StrFacts.subseq_absent with s; assumption.
Qed.

Lemma C6_witness :
  naked_twins crossing_twins = Return (returned [] (naked_twins crossing_twins)) /\
  detected crossing_twins row_A "A1" "A5" "12" /\
  exists d0 da db,
    narrows crossing_twins d0 /\ In "A1" row_A /\ In "A5" row_A /\ "A1" <> "A5" /\
    get d0 "A1" = Some "12" /\ get d0 "A5" = Some "12" /\ String.length "12" = 2 /\
    narrows d0 da /\ strip_twin row_A "A1" "A5" "12" da = Return db /\
    narrows db (returned [] (naked_twins crossing_twins)) /\
    get db "A1" = get da "A1" /\ get db "A5" = get da "A5" /\
    forall cell digit, In cell row_A -> cell <> "A1" -> cell <> "A5" ->
                       In digit (Str.chars "12") ->
                       (exists s, get db cell = Some s /\ Str.contains digit s = false) /\
                       (exists s, get (returned [] (naked_twins crossing_twins)) cell = Some s /\
                                  Str.contains digit s = false).
Proof.
  assert (H : naked_twins crossing_twins
              = Return (returned [] (naked_twins crossing_twins)))
    by (vm_compute; reflexivity).
  split; [exact H |]. split; [exact crossing_twins_detected |].
  exact (C6_twin_pair_processing crossing_twins _ row_A "A1" "A5" "12" H
           crossing_twins_detected).
Defined.

(** C6 (as stated) fails: in [crossing_twins] the cells A1 and A5 are a twin
    pair "12" of row A, which [naked_twins] detects; D1 and G1 are a twin
    pair "23" of column 1, and processing that pair removes the digit 2
    from A1, a member of the first pair. *)
Lemma C6_counterexample :
  exists d',
    naked_twins crossing_twins = Return d' /\
    detected crossing_twins row_A "A1" "A5" "12" /\
    get crossing_twins "A1" = Some "12" /\
    get d' "A1" = Some "1".
Proof.
  exists (returned [] (naked_twins crossing_twins)).
  split; [vm_compute; reflexivity |].
  split; [exact crossing_twins_detected |].
  split; vm_compute; reflexivity.
Qed.

(** C7: when the reducer returns an assignment with fewer than 81 solved
    cells, the cell [search] branches on is unsolved and has the fewest
    candidates among the unsolved cells, every unsolved cell before it in
    the scan having strictly more; the search then returns the result of
    the first candidate of that cell, in the order of its candidate string,
    whose branch succeeds, and fails if none does. *)
Theorem C7_branch_selection_and_order d r fuel :
  is_assignment d = true -> at_most_nine d = true ->
  reduce_puzzle fuel d = Return (Some r) -> count_len 1 r < 81 ->
  exists pre b s post m n res,
    scan r = (m, Some b, n) /\
    r = pre ++ (b, s) :: post /\ get r b = Some s /\ String.length s <> 1 /\
    (forall k t, In (k, t) pre ->
                 String.length t = 1 \/ String.length s < String.length t) /\
    (forall k t, In (k, t) post ->
                 String.length t = 1 \/ String.length s <= String.length t) /\
    search_returns d res /\
    first_success search_returns r b (Str.chars s) res.
Proof.
  intros W A9 H Lt. pose proof (reduce_puzzle_spec _ _ _ H) as Spec.
  pose proof (at_most_nine_short d A9) as Sh.
  destruct (reducer_spec_some d _ Spec r eq_refl) as (N & Z & _).
  pose proof (assignment_narrows _ _ N W) as W'.
  pose proof (short_narrows _ _ N Sh) as Sh'.
  destruct (scan r) as [[m mb] n] eqn:Hs.
  destruct (branch_cell r m mb n W' Sh' Z Hs) as [Hn Hb].
  destruct Hb as (pre & b & s & post & E & -> & G & Len & Hpre & Hpost); [lia |].
  destruct (search_terminates d W Sh) as [res Hres].
  exists pre, b, s, post, m, n, res.
  split; [reflexivity |]. split; [assumption |]. split; [assumption |].
  split; [lia |]. split; [assumption |]. split; [assumption |].
  split; [exists 811; assumption |].
  pose proof (Hres (S (Nat.max fuel 811)) ltac:(lia)) as Hsearch.
  assert (Hred : reduce_puzzle (S (Nat.max fuel 811)) d = Return (Some r)).
  { apply reduce_puzzle_mono with fuel; [assumption | lia]. }
  rewrite (search_node _ d r m (Some b) n Hred W' Hs) in Hsearch.
  destruct (Nat.eqb_spec n 81) as [E81 | _]; [lia |].
  unfold lookup in Hsearch. rewrite G in Hsearch. cbn [bind] in Hsearch.
  apply try_choices_first with (Nat.max fuel 811); [assumption | | assumption].
  apply get_keys with s. assumption.
Qed.

Lemma C7_witness :
  is_assignment (grid2values open_grid) = true /\
  at_most_nine (grid2values open_grid) = true /\
  reduce_puzzle 82 (grid2values open_grid)
  = Return (Some (reduced (grid2values open_grid))) /\
  count_len 1 (reduced (grid2values open_grid)) < 81 /\
  exists pre b s post m n res,
    scan (reduced (grid2values open_grid)) = (m, Some b, n) /\
    reduced (grid2values open_grid) = pre ++ (b, s) :: post /\
    get (reduced (grid2values open_grid)) b = Some s /\ String.length s <> 1 /\
    (forall k t, In (k, t) pre ->
                 String.length t = 1 \/ String.length s < String.length t) /\
    (forall k t, In (k, t) post ->
                 String.length t = 1 \/ String.length s <= String.length t) /\
    search_returns (grid2values open_grid) res /\
    first_success search_returns (reduced (grid2values open_grid)) b (Str.chars s) res.
Proof.
  assert (H : reduce_puzzle 82 (grid2values open_grid)
              = Return (Some (reduced (grid2values open_grid))))
    by (vm_compute; reflexivity).
  assert (L : count_len 1 (reduced (grid2values open_grid)) < 81)
    by (apply Nat.ltb_lt; vm_compute; reflexivity).
  split; [reflexivity |]. split; [reflexivity |].
  split; [exact H |]. split; [exact L |].
  exact (C7_branch_selection_and_order (grid2values open_grid)
           (reduced (grid2values open_grid)) 82 eq_refl eq_refl H L).
Defined.

(** C8: on a grid whose 81 characters are digits 1-9 and whose 29 units
    each hold every digit once, [solve] returns the assignment of that
    grid, unchanged. *)
Theorem C8_solved_grid_is_returned_unchanged grid fuel :
  String.length grid = 81 ->
  forallb (fun c => Str.contains c digits) (Str.chars grid) = true ->
  units_ok (grid2values grid) = true ->
  0 < fuel ->
  solve fuel grid = Return (Some (grid2values grid)).
Proof.
  intros L Given U F. unfold solve. set (d := grid2values grid).
  pose proof (grid2values_assignment grid L) as W. fold d in W.
  pose proof (grid2values_given grid Given) as S1. fold d in S1.
  pose proof (candidates_ok_within _ (grid2values_candidates grid)) as WD. fold d in WD.
  pose proof (units_ok_conflict_free d S1 WD U) as CF.
  pose proof (assignment_covers d W) as C.
  destruct (singles_counts d S1) as [Z All].
  destruct fuel as [| fuel]; [lia |].
  assert (Hred : reduce_puzzle (S fuel) d = Return (Some d)).
  { simpl. unfold reduce_pass.
    rewrite (eliminate_conflict_free d S1 CF C). cbn [bind].
    rewrite (only_choice_solved d S1 C). cbn [bind].
    rewrite Z. cbn [negb Nat.eqb]. rewrite Nat.eqb_refl. reflexivity. }
  destruct (scan d) as [[m mb] n] eqn:Hs.
  rewrite (search_node fuel d d m mb n Hred W Hs).
  destruct (branch_cell d m mb n W (within_digits_short d WD) Z Hs) as [Hn _].
  rewrite Hn, All, (assignment_length d W). reflexivity.
Qed.

Lemma C8_witness :
  String.length diag_sudoku_solved = 81 /\
  forallb (fun c => Str.contains c digits) (Str.chars diag_sudoku_solved) = true /\
  units_ok (grid2values diag_sudoku_solved) = true /\
  0 < 1 /\
  solve 1 diag_sudoku_solved = Return (Some (grid2values diag_sudoku_solved)).
Proof.
  split; [reflexivity |]. split; [reflexivity |]. split; [reflexivity |].
  split; [apply Nat.lt_0_1 |].
  exact (C8_solved_grid_is_returned_unchanged diag_sudoku_solved 1
           eq_refl eq_refl eq_refl Nat.lt_0_1).
Defined.

(** C9: on every assignment, each of [eliminate], [only_choice] and
    [naked_twins] returns an assignment with the same cells in which every
    candidate string is a subsequence of the one it had. *)
Theorem C9_strategies_only_narrow d :
  is_assignment d = true ->
  (exists e, eliminate d = Return e /\ narrows d e) /\
  (exists e, only_choice d = Return e /\ narrows d e) /\
  (exists e, naked_twins d = Return e /\ narrows d e).
Proof.
  intros W. pose proof (assignment_covers d W) as C. repeat split.
  - apply (eliminate_total (keys d) C d eq_refl).
  - apply (only_choice_total (keys d) C d eq_refl).
  - apply (naked_twins_total (keys d) C d eq_refl).
Qed.

Lemma C9_witness :
  is_assignment (grid2values diag_sudoku_grid) = true /\
  (exists e, eliminate (grid2values diag_sudoku_grid) = Return e /\
             narrows (grid2values diag_sudoku_grid) e) /\
  (exists e, only_choice (grid2values diag_sudoku_grid) = Return e /\
             narrows (grid2values diag_sudoku_grid) e) /\
  (exists e, naked_twins (grid2values diag_sudoku_grid) = Return e /\
             narrows (grid2values diag_sudoku_grid) e).
Proof.
  split; [reflexivity |].
  apply (C9_strategies_only_narrow (grid2values diag_sudoku_grid)). reflexivity.
Defined.

(** C10: when [reduce_puzzle] returns an assignment with fewer than 81
    solved cells, the scan of [search] ends with [min_box] set to a cell
    that has between 2 and 9 candidates, and the lookup of its candidates
    succeeds. *)
Theorem C10_branch_cell_is_set d r fuel :
  is_assignment d = true -> at_most_nine d = true ->
  reduce_puzzle fuel d = Return (Some r) -> count_len 1 r < 81 ->
  exists m b n s,
    scan r = (m, Some b, n) /\ lookup r b = Return s /\
    2 <= String.length s <= 9.
Proof.
  intros W A9 H Lt. pose proof (reduce_puzzle_spec _ _ _ H) as Spec.
  destruct (reducer_spec_some d _ Spec r eq_refl) as (N & Z & _).
  pose proof (assignment_narrows _ _ N W) as W'.
  pose proof (short_narrows _ _ N (at_most_nine_short d A9)) as Sh'.
  destruct (scan r) as [[m mb] n] eqn:Hs.
  destruct (branch_cell r m mb n W' Sh' Z Hs) as [Hn Hb].
  destruct Hb as (pre & b & s & post & _ & -> & G & Len & _); [lia |].
  exists m, b, n, s. split; [reflexivity |]. split; [| assumption].
  apply lookup_Return. assumption.
Qed.

Lemma C10_witness :
  is_assignment (grid2values open_grid) = true /\
  at_most_nine (grid2values open_grid) = true /\
  reduce_puzzle 82 (grid2values open_grid)
  = Return (Some (reduced (grid2values open_grid))) /\
  count_len 1 (reduced (grid2values open_grid)) < 81 /\
  exists m b n s,
    scan (reduced (grid2values open_grid)) = (m, Some b, n) /\
    lookup (reduced (grid2values open_grid)) b = Return s /\
    2 <= String.length s <= 9.
Proof.
  assert (H : reduce_puzzle 82 (grid2values open_grid)
              = Return (Some (reduced (grid2values open_grid))))
    by (vm_compute; reflexivity).
  assert (L : count_len 1 (reduced (grid2values open_grid)) < 81)
    by (apply Nat.ltb_lt; vm_compute; reflexivity).
  split; [reflexivity |]. split; [reflexivity |].
  split; [exact H |]. split; [exact L |].
  exact (C10_branch_cell_is_set (grid2values open_grid)
           (reduced (grid2values open_grid)) 82 eq_refl eq_refl H L).
Defined.

(** * Further properties of the solver *)

(** ** Solved grids *)

Lemma solved_grid_parts sol :
  solved_grid sol = true ->
  is_assignment sol = true /\ all_single sol = true /\ units_ok sol = true.
Proof.
  unfold solved_grid. intros H.
  apply andb_true_iff in H. destruct H as [H U].
  apply andb_true_iff in H. destruct H as [W A]. auto.
Qed.

Lemma board_covered_true : board_covered = true.
Proof. vm_compute. reflexivity. Qed.

Lemma box_in_unit b : In b boxes -> exists u, In u unitlist /\ In b u.
Proof.
  intros Hb. pose proof board_covered_true as H. unfold board_covered in H.
  rewrite forallb_forall in H. specialize (H b Hb).
  apply existsb_exists in H. destruct H as (u & Hu & Hm).
  exists u. split; [assumption | apply mem_In; assumption].
Qed.

Lemma units_ok_count sol u c :
  units_ok sol = true -> In u unitlist -> In c (Str.chars digits) ->
  count_digit sol u c = 1.
Proof.
  unfold units_ok. intros U Hu Hc. rewrite forallb_forall in U.
  specialize (U u Hu). rewrite forallb_forall in U. apply Nat.eqb_eq. auto.
Qed.

(** In a solved grid every cell holds one of the digits 1-9: a unit has nine
    cells, and each of the nine digits fills one of them. *)
Lemma solved_grid_within_digits sol : solved_grid sol = true -> within_digits sol.
Proof.
  intros H. destruct (solved_grid_parts sol H) as (W & A & U).
  pose proof (all_single_singles sol A) as S1.
  intros k s G.
  assert (Hk : In k boxes).
  { apply Permutation_in with (keys sol).
    - apply Permutation_sym. apply is_assignment_perm. assumption.
    - apply get_keys with s. assumption. }
  destruct (box_in_unit k Hk) as (u & Hu & Hku).
  destruct (unit_facts u Hu) as (ND & Len & Incl).
  assert (Cells : forall b, In b u -> exists x, get sol b = Some (Str.of_char x)).
  { intros b Hb. destruct (keys_get sol b (assignment_covers sol W b (Incl b Hb))) as [t Ht].
    destruct (StrFacts.length_one t (S1 b t Ht)) as [x ->]. eauto. }
  assert (Hall : incl (map (digit_of sol) u) (Str.chars digits)).
  { apply NoDup_length_incl.
    - unfold digits. simpl. repeat constructor; simpl; intuition discriminate.
    - rewrite length_map, Len. simpl. apply le_n.
    - intros c Hc. apply (count_occ_In ascii_dec).
      rewrite <- (count_digit_occ sol u c Cells), (units_ok_count sol u c U Hu Hc).
      apply Nat.lt_0_1. }
  destruct (Cells k Hku) as [x Hx]. rewrite G in Hx. injection Hx as ->.
  apply StrFacts.subseq_of_char. apply StrFacts.contains_In. apply Hall.
  apply in_map_iff. exists k. split; [| assumption].
  unfold digit_of. rewrite G. reflexivity.
Qed.

Lemma solved_grid_conflict_free sol : solved_grid sol = true -> conflict_free sol.
Proof.
  intros H. destruct (solved_grid_parts sol H) as (W & A & U).
  apply units_ok_conflict_free; [| | assumption].
  - apply all_single_singles. assumption.
  - apply solved_grid_within_digits. assumption.
Qed.

(** Two peers hold different digits in a solved grid. *)
Lemma solved_peers_differ sol k p x y :
  conflict_free sol -> In p (peers k) ->
  get sol k = Some (Str.of_char x) -> get sol p = Some (Str.of_char y) -> x <> y.
Proof.
  intros CF Hp Gk Gp E. subst y. pose proof (CF k x p Gk Hp) as A.
  unfold has in A. rewrite Gp in A. simpl in A.
  rewrite Ascii.eqb_refl in A. discriminate.
Qed.

Lemma fits_admits sol d : fits sol d = true -> admits d sol.
Proof.
  unfold fits. intros H k s G. rewrite forallb_forall in H.
  specialize (H (k, s) (get_In d k s G)). cbn [fst snd] in H.
  destruct (get sol k) as [[| c [| c' t]] |]; try discriminate.
  exists c. auto.
Qed.

Lemma admits_fits sol d : NoDup (keys d) -> admits d sol -> fits sol d = true.
Proof.
  intros ND H. unfold fits. apply forallb_forall. intros [k s] Hin. cbn [fst snd].
  destruct (H k s (In_get d k s ND Hin)) as (c & G & Hc). rewrite G. assumption.
Qed.

Lemma admits_no_empty d sol : admits d sol -> count_len 0 d = 0.
Proof.
  intros H. unfold count_len. apply filter_length_none. intros k Hk.
  destruct (keys_get d k Hk) as [s Hs]. rewrite Hs.
  destruct (H k s Hs) as (c & _ & Hc). destruct s; [discriminate | reflexivity].
Qed.

Lemma admits_set d sol b c :
  admits d sol -> get sol b = Some (Str.of_char c) ->
  admits (set d b (Str.of_char c)) sol.
Proof.
  intros H G k s Gk. destruct (string_dec b k) as [<- | N].
  - rewrite get_set_same in Gk. injection Gk as <-. exists c. split; [assumption |].
    simpl. rewrite Ascii.eqb_refl. reflexivity.
  - rewrite get_set_other in Gk by assumption. apply H. assumption.
Qed.

(** A loop keeps what each of its turns keeps. *)
Lemma foldM_invariant {A S} (Inv : S -> Prop) (body : S -> A -> outcome S) xs :
  (forall st a st', In a xs -> Inv st -> body st a = Return st' -> Inv st') ->
  forall st st', Inv st -> foldM body xs st = Return st' -> Inv st'.
Proof.
  induction xs as [| x xs IH]; simpl; intros Hbody st st' I H.
  - injection H as <-. assumption.
  - inv_bind H. apply IH with a; auto.
    + intros st0 a0 st0' Hin. apply Hbody. auto.
    + apply (Hbody st x a); auto.
Qed.

(** ** The strategies keep every solution *)

Lemma replace_empty_keeps c x s :
  x <> c -> Str.contains x s = true -> Str.contains x (Str.replace_empty c s) = true.
Proof.
  intros N. induction s as [| y s IH]; simpl; intros H; [discriminate |].
  destruct (Ascii.eqb_spec y c) as [-> | Nc].
  - destruct (Ascii.eqb_spec c x) as [-> | _]; [contradiction | auto].
  - simpl. destruct (Ascii.eqb y x); [reflexivity | auto].
Qed.

Lemma discard_admits sol c d cell d' :
  admits d sol -> (forall x, get sol cell = Some (Str.of_char x) -> x <> c) ->
  discard c d cell = Return d' -> admits d' sol.
Proof.
  intros H Hx Hd. apply discard_inv in Hd. destruct Hd as (s & Gs & ->).
  intros k t Gk. destruct (string_dec cell k) as [<- | N].
  - rewrite get_set_same in Gk. injection Gk as <-.
    destruct (H cell s Gs) as (x & Gx & Hc). exists x. split; [assumption |].
    apply replace_empty_keeps; auto.
  - rewrite get_set_other in Gk by assumption. apply H. assumption.
Qed.

Lemma eliminate_item_admits sol d k d' :
  conflict_free sol -> admits d sol -> eliminate_item d k = Return d' ->
  admits d' sol.
Proof.
  intros CF H He. unfold eliminate_item in He. inv_bind He.
  apply lookup_Return in Ha. destruct a as [| c [| y rest]].
  - injection He as <-. assumption.
  - destruct (H k _ Ha) as (x & Gx & Hc). simpl in Hc.
    rewrite orb_false_r in Hc. apply Ascii.eqb_eq in Hc. subst x.
    apply (foldM_invariant (fun st => admits st sol) (discard c) (peers k))
      with (st := d); [| assumption | assumption].
    intros st p st' Hp I. apply discard_admits; [assumption |].
    intros x Gp E. subst x.
    apply (solved_peers_differ sol k p c c CF Hp Gx Gp). reflexivity.
  - injection He as <-. assumption.
Qed.

Lemma eliminate_admits sol d e :
  conflict_free sol -> admits d sol -> eliminate d = Return e -> admits e sol.
Proof.
  intros CF H. unfold eliminate.
  apply (foldM_invariant (fun st => admits st sol)); [| assumption].
  intros st k st' _. apply eliminate_item_admits. assumption.
Qed.

Lemma places_reads digit d unit ps :
  places digit d unit = Return ps -> incl unit (keys d).
Proof.
  revert ps. induction unit as [| b unit IH]; simpl; intros ps H x Hx.
  - contradiction.
  - inv_bind H. apply lookup_Return in Ha. inv_bind H.
    destruct Hx as [<- | Hx]; [apply get_keys with a; assumption |].
    apply (IH a0 Ha0). assumption.
Qed.

Lemma count_digit_cell sol u c :
  count_digit sol u c = 1 -> exists b, In b u /\ get sol b = Some (Str.of_char c).
Proof.
  unfold count_digit. intros H.
  destruct (filter _ u) as [| b l] eqn:E; [discriminate |].
  assert (Hb : In b (b :: l)) by (left; reflexivity).
  rewrite <- E in Hb. apply filter_In in Hb. destruct Hb as [Hb F].
  exists b. split; [assumption |].
  destruct (get sol b) as [s |]; [| discriminate].
  apply String.eqb_eq in F. congruence.
Qed.

Lemma only_choice_digit_admits sol u d c d' :
  units_ok sol = true -> In u unitlist -> In c (Str.chars digits) ->
  admits d sol -> only_choice_digit u d c = Return d' -> admits d' sol.
Proof.
  intros U Hu Hc H Ho. unfold only_choice_digit in Ho. inv_bind Ho.
  pose proof (places_reads _ _ _ _ Ha) as Hkeys.
  pose proof (places_spec _ _ _ _ Ha) as E.
  destruct a as [| b [| b' rest]]; try (injection Ho as <-; assumption).
  injection Ho as <-.
  destruct (count_digit_cell sol u c (units_ok_count sol u c U Hu Hc)) as (b0 & Hb0 & G0).
  destruct (keys_get d b0 (Hkeys b0 Hb0)) as [s Hs].
  destruct (H b0 s Hs) as (x & Gx & Hx). rewrite G0 in Gx. injection Gx as <-.
  assert (Hin : In b0 (filter (has c d) u)).
  { apply filter_In. split; [assumption |]. unfold has. rewrite Hs. assumption. }
  rewrite <- E in Hin. destruct Hin as [<- | []].
  apply admits_set; assumption.
Qed.

Lemma only_choice_admits sol d e :
  units_ok sol = true -> admits d sol -> only_choice d = Return e -> admits e sol.
Proof.
  intros U H. unfold only_choice.
  apply (foldM_invariant (fun st => admits st sol)); [| assumption].
  intros st u st' Hu I. unfold only_choice_unit.
  apply (foldM_invariant (fun st => admits st sol)); [| assumption].
  intros st0 c st0' Hc. apply only_choice_digit_admits; assumption.
Qed.

(** The digits of a twin pair are taken by the two twins, so no other cell
    of the unit holds one of them in a solution. *)
Lemma twins_exclude sol u bi bj t x y :
  conflict_free sol -> In u unitlist -> In bi u -> In bj u -> bi <> bj ->
  String.length t = 2 ->
  get sol bi = Some (Str.of_char x) -> Str.contains x t = true ->
  get sol bj = Some (Str.of_char y) -> Str.contains y t = true ->
  forall cell z, In cell u -> cell <> bi -> cell <> bj ->
                 get sol cell = Some (Str.of_char z) -> ~ In z (Str.chars t).
Proof.
  intros CF Hu Hi Hj Nij Len Gi Hx Gj Hy cell z Hc Ni Nj Gz Hz.
  pose proof (solved_peers_differ sol bi bj x y CF (unit_peers u bi bj Hu Hi Hj Nij) Gi Gj) as Nxy.
  pose proof (solved_peers_differ sol bi cell x z CF
                (unit_peers u bi cell Hu Hi Hc (not_eq_sym Ni)) Gi Gz) as Nxz.
  pose proof (solved_peers_differ sol bj cell y z CF
                (unit_peers u bj cell Hu Hj Hc (not_eq_sym Nj)) Gj Gz) as Nyz.
  destruct t as [| a [| b [| c t]]]; try discriminate.
  apply StrFacts.contains_In in Hx, Hy. simpl in Hx, Hy, Hz.
  intuition congruence.
Qed.

Lemma strip_twin_admits sol u bi bj t d d' :
  admits d sol ->
  (forall cell z, In cell u -> cell <> bi -> cell <> bj ->
                  get sol cell = Some (Str.of_char z) -> ~ In z (Str.chars t)) ->
  strip_twin u bi bj t d = Return d' -> admits d' sol.
Proof.
  intros H Hex. unfold strip_twin.
  apply (foldM_invariant (fun st => admits st sol)); [| assumption].
  intros st cell st' Hcell I. apply filter_In in Hcell. destruct Hcell as [Hcell F].
  apply negb_true_iff, orb_false_iff in F. destruct F as [Ni Nj].
  apply String.eqb_neq in Ni, Nj.
  apply (foldM_invariant (fun st => admits st sol)); [| assumption].
  intros st0 c st0' Hc I0. apply discard_admits; [assumption |].
  intros z Gz E. subst z. apply (Hex cell c); assumption.
Qed.

Lemma twin_pairs_admits sol u pt : forall d d',
  conflict_free sol -> In u unitlist -> NoDup (map fst pt) ->
  (forall b t, In (b, t) pt ->
               In b u /\ String.length t = 2 /\
               exists x, get sol b = Some (Str.of_char x) /\ Str.contains x t = true) ->
  admits d sol -> twin_pairs u pt d = Return d' -> admits d' sol.
Proof.
  induction pt as [| [bi ti] rest IH]; simpl; intros d d' CF Hu ND F H Ht.
  - injection Ht as <-. assumption.
  - inv_bind Ht. inversion ND as [| x l Hnin ND']; subst.
    apply IH with a; auto.
    apply (foldM_invariant (fun st => admits st sol) (twins_with u (bi, ti)) rest)
      with (st := d); [| assumption | assumption].
    intros st [bj tj] st' Hj I. unfold twins_with. cbn [fst snd].
    destruct (String.eqb_spec ti tj) as [<- | _]; [| intros E; injection E as <-; assumption].
    destruct (F bi ti (or_introl eq_refl)) as (Hbi & Len & x & Gx & Hx).
    destruct (F bj ti (or_intror Hj)) as (Hbj & _ & y & Gy & Hy).
    apply strip_twin_admits; [assumption |].
    apply (twins_exclude sol u bi bj ti x y); auto.
    intros E. subst bj. apply Hnin.
    change bi with (fst (bi, ti)). apply in_map. assumption.
Qed.

Lemma naked_twins_unit_admits sol d u d' :
  conflict_free sol -> In u unitlist -> admits d sol ->
  naked_twins_unit d u = Return d' -> admits d' sol.
Proof.
  intros CF Hu H Hn. unfold naked_twins_unit in Hn. inv_bind Hn.
  destruct (possible_twins_facts d u a Ha) as [F ND].
  destruct (unit_facts u Hu) as (NDu & _ & _).
  apply (twin_pairs_admits sol u a d d'); auto.
  intros b t Hin. destruct (F b t Hin) as (Hb & G & Len).
  split; [assumption |]. split; [assumption |].
  destruct (H b t G) as (x & Gx & Hx). eauto.
Qed.

Lemma naked_twins_admits sol d e :
  conflict_free sol -> admits d sol -> naked_twins d = Return e -> admits e sol.
Proof.
  intros CF H. unfold naked_twins.
  apply (foldM_invariant (fun st => admits st sol)); [| assumption].
  intros st u st' Hu I. apply naked_twins_unit_admits; assumption.
Qed.

(** ** The reducer and the search keep every solution *)

Lemma reduce_puzzle_admits sol fuel : forall d r,
  conflict_free sol -> units_ok sol = true -> admits d sol ->
  reduce_puzzle fuel d = Return r -> exists r', r = Some r' /\ admits r' sol.
Proof.
  induction fuel as [| fuel IH]; simpl; intros d r CF U H Hr; [discriminate |].
  inv_bind Hr. apply reduce_pass_inv in Ha. destruct Ha as (d1 & H1 & H2).
  assert (Ia : admits a sol).
  { apply only_choice_admits with d1; [assumption | | assumption].
    apply eliminate_admits with d; assumption. }
  rewrite (admits_no_empty a sol Ia) in Hr. cbn [Nat.eqb negb] in Hr.
  destruct (Nat.eqb (count_len 1 d) (count_len 1 a)).
  - injection Hr as <-. eauto.
  - apply IH with a; assumption.
Qed.

Lemma try_choices_hit (rec : values -> outcome (option values)) d b cs c :
  In c cs ->
  (forall x, rec (set d b (Str.of_char c)) = Return x -> truthy x = true) ->
  forall r, try_choices rec d b cs = Return r -> truthy r = true.
Proof.
  intros Hc Hrec. induction cs as [| c0 cs IH]; simpl; intros r H.
  - contradiction.
  - inv_bind H. destruct (truthy a) eqn:T.
    + injection H as <-. assumption.
    + destruct Hc as [-> | Hc].
      * rewrite (Hrec a Ha) in T. discriminate.
      * apply IH; assumption.
Qed.

(** A node from which a solution can be reached does not answer [False]. *)
Lemma search_complete sol fuel : forall d r,
  is_assignment d = true -> conflict_free sol -> units_ok sol = true ->
  admits d sol -> search fuel d = Return r -> truthy r = true.
Proof.
  induction fuel as [| fuel IH]; intros d r W CF U H Hs; [discriminate |].
  pose proof Hs as Hs0. rewrite search_S in Hs0. inv_bind Hs0. clear Hs0.
  destruct (reduce_puzzle_admits sol _ d a CF U H Ha) as (d' & -> & H').
  pose proof (reduce_puzzle_spec _ _ _ Ha) as Spec.
  destruct (reducer_spec_some d _ Spec d' eq_refl) as (N & Z & _).
  pose proof (assignment_narrows _ _ N W) as W'.
  destruct (scan d') as [[m mb] n] eqn:Hscan.
  rewrite (search_node fuel d d' m mb n Ha W' Hscan) in Hs.
  destruct (Nat.eqb n 81).
  - injection Hs as <-. apply assignment_truthy. assumption.
  - destruct mb as [b |]; [| discriminate]. inv_bind Hs.
    apply lookup_Return in Ha0. destruct (H' b a Ha0) as (c & Gc & Hc).
    apply (try_choices_hit (search fuel) d' b (Str.chars a) c); [| | assumption].
    + apply StrFacts.contains_In. assumption.
    + intros x Hx. apply IH with (set d' b (Str.of_char c)); auto.
      * apply assignment_keys with d'; [| assumption].
        apply keys_set. apply get_keys with a. assumption.
      * apply admits_set; assumption.
Qed.

(** What the search returns is cut out of the candidates it was given. *)
Lemma search_narrows fuel : forall d sol,
  search fuel d = Return (Some sol) -> narrows d sol.
Proof.
  induction fuel as [| fuel IH]; intros d sol H; [discriminate |].
  rewrite search_S in H. inv_bind H.
  destruct (negb (truthy a)); [discriminate |].
  destruct a as [d' |]; [| discriminate].
  pose proof (reduce_puzzle_spec _ _ _ Ha) as Spec.
  destruct (reducer_spec_some d _ Spec d' eq_refl) as (N & _ & _).
  destruct (scan d') as [[m mb] n].
  destruct (Nat.eqb n 81); [injection H as <-; assumption |].
  destruct mb as [b |]; [| discriminate]. inv_bind H.
  apply lookup_Return in Ha0.
  apply try_choices_some in H. destruct H as (c & Hc & Hr).
  apply narrows_trans with d'; [assumption |].
  apply narrows_trans with (set d' b (Str.of_char c)); [| apply IH; assumption].
  apply narrows_set with a; [assumption |].
  apply StrFacts.subseq_of_char. apply StrFacts.contains_In. assumption.
Qed.

(** What the search returns has every cell solved. *)
Lemma search_some_singles fuel : forall d sol,
  is_assignment d = true -> search fuel d = Return (Some sol) -> singles sol.
Proof.
  induction fuel as [| fuel IH]; intros d sol W H; [discriminate |].
  pose proof H as H0. rewrite search_S in H0. inv_bind H0. clear H0.
  pose proof (reduce_puzzle_spec _ _ _ Ha) as Spec.
  destruct a as [d' |]; [| rewrite search_S, Ha in H; discriminate H].
  destruct (reducer_spec_some d _ Spec d' eq_refl) as (N & _ & _).
  pose proof (assignment_narrows _ _ N W) as W'.
  destruct (scan d') as [[m mb] n] eqn:Hscan.
  rewrite (search_node fuel d d' m mb n Ha W' Hscan) in H.
  destruct (Nat.eqb_spec n 81) as [E | _].
  - injection H as <-. unfold scan in Hscan. apply scan_spec in Hscan.
    destruct Hscan as [Hn _]. simpl in Hn.
    rewrite (solved_items_count d' (assignment_NoDup d' W')) in Hn.
    intros k s G. apply all_solved_get with d' k; [| assumption].
    rewrite (assignment_length d' W'). congruence.
  - destruct mb as [b |]; [| discriminate]. inv_bind H.
    apply lookup_Return in Ha0.
    apply try_choices_some in H. destruct H as (c & _ & Hr).
    apply IH with (set d' b (Str.of_char c)); [| assumption].
    apply assignment_keys with d'; [| assumption].
    apply keys_set. apply get_keys with a. assumption.
Qed.

Lemma narrows_singles_admits d sol : narrows d sol -> singles sol -> admits d sol.
Proof.
  intros [_ G] S1 k s Gk. destruct (G k s Gk) as (s' & Gs' & Sub).
  destruct (StrFacts.length_one s' (S1 k s' Gs')) as [c ->].
  exists c. split; [assumption |].
  apply StrFacts.subseq_contains with (Str.of_char c); [assumption |].
  simpl. rewrite Ascii.eqb_refl. reflexivity.
Qed.

(** X1: [eliminate] removes no candidate that a solution uses: a solved
    grid that fits the assignment before the call fits it after the
    call. *)
Theorem X1_eliminate_keeps_solutions d sol :
  is_assignment d = true -> solved_grid sol = true -> fits sol d = true ->
  exists e, eliminate d = Return e /\ fits sol e = true.
Proof.
  intros W S F.
  destruct (eliminate_total (keys d) (assignment_covers d W) d eq_refl) as (e & He & N).
  exists e. split; [assumption |]. apply admits_fits.
  - apply assignment_NoDup. apply assignment_narrows with d; assumption.
  - apply eliminate_admits with d; [| | assumption].
    + apply solved_grid_conflict_free. assumption.
    + apply fits_admits. assumption.
Qed.

Lemma X1_witness :
  is_assignment (grid2values diag_sudoku_grid) = true /\
  solved_grid (grid2values diag_sudoku_solved) = true /\
  fits (grid2values diag_sudoku_solved) (grid2values diag_sudoku_grid) = true /\
  exists e, eliminate (grid2values diag_sudoku_grid) = Return e /\
            fits (grid2values diag_sudoku_solved) e = true.
Proof.
  split; [reflexivity |]. split; [reflexivity |]. split; [reflexivity |].
  exact (X1_eliminate_keeps_solutions (grid2values diag_sudoku_grid)
           (grid2values diag_sudoku_solved) eq_refl eq_refl eq_refl).
Defined.

(** X2: [only_choice] fixes a cell only to the digit that every solution
    puts there: a solved grid that fits the assignment before the call fits
    it after the call. *)
Theorem X2_only_choice_keeps_solutions d sol :
  is_assignment d = true -> solved_grid sol = true -> fits sol d = true ->
  exists e, only_choice d = Return e /\ fits sol e = true.
Proof.
  intros W S F.
  destruct (only_choice_total (keys d) (assignment_covers d W) d eq_refl) as (e & He & N).
  exists e. split; [assumption |]. apply admits_fits.
  - apply assignment_NoDup. apply assignment_narrows with d; assumption.
  - apply only_choice_admits with d; [| | assumption].
    + apply (solved_grid_parts sol S).
    + apply fits_admits. assumption.
Qed.

Lemma X2_witness :
  is_assignment (grid2values diag_sudoku_grid) = true /\
  solved_grid (grid2values diag_sudoku_solved) = true /\
  fits (grid2values diag_sudoku_solved) (grid2values diag_sudoku_grid) = true /\
  exists e, only_choice (grid2values diag_sudoku_grid) = Return e /\
            fits (grid2values diag_sudoku_solved) e = true.
Proof.
  split; [reflexivity |]. split; [reflexivity |]. split; [reflexivity |].
  exact (X2_only_choice_keeps_solutions (grid2values diag_sudoku_grid)
           (grid2values diag_sudoku_solved) eq_refl eq_refl eq_refl).
Defined.

(** X3: [naked_twins] removes no candidate that a solution uses: a solved
    grid that fits the assignment before the call fits it after the
    call. *)
Theorem X3_naked_twins_keeps_solutions d sol :
  is_assignment d = true -> solved_grid sol = true -> fits sol d = true ->
  exists e, naked_twins d = Return e /\ fits sol e = true.
Proof.
  intros W S F.
  destruct (naked_twins_total (keys d) (assignment_covers d W) d eq_refl) as (e & He & N).
  exists e. split; [assumption |]. apply admits_fits.
  - apply assignment_NoDup. apply assignment_narrows with d; assumption.
  - apply naked_twins_admits with d; [| | assumption].
    + apply solved_grid_conflict_free. assumption.
    + apply fits_admits. assumption.
Qed.

Lemma X3_witness :
  is_assignment (reduced (grid2values open_grid)) = true /\
  solved_grid (grid2values found_by_search) = true /\
  fits (grid2values found_by_search) (reduced (grid2values open_grid)) = true /\
  exists e, naked_twins (reduced (grid2values open_grid)) = Return e /\
            fits (grid2values found_by_search) e = true.
Proof.
  assert (W : is_assignment (reduced (grid2values open_grid)) = true)
    by (vm_compute; reflexivity).
  assert (F : fits (grid2values found_by_search) (reduced (grid2values open_grid)) = true)
    by (vm_compute; reflexivity).
  split; [exact W |]. split; [reflexivity |]. split; [exact F |].
  exact (X3_naked_twins_keeps_solutions (reduced (grid2values open_grid))
           (grid2values found_by_search) W eq_refl F).
Defined.

(** X4: [reduce_puzzle] does not answer [False] on an assignment that a
    solved grid fits, and the grid fits the assignment it returns. *)
Theorem X4_reduce_puzzle_keeps_solutions d sol :
  is_assignment d = true -> solved_grid sol = true -> fits sol d = true ->
  exists r, (forall fuel, 82 <= fuel -> reduce_puzzle fuel d = Return (Some r)) /\
            fits sol r = true.
Proof.
  intros W S F. destruct (reduce_puzzle_terminates d W) as [r0 Hr0].
  destruct (reduce_puzzle_admits sol 82 d r0) as (r & -> & Hr).
  - apply solved_grid_conflict_free. assumption.
  - apply (solved_grid_parts sol S).
  - apply fits_admits. assumption.
  - apply Hr0. apply le_n.
  - exists r. split; [assumption |]. apply admits_fits; [| assumption].
    apply assignment_NoDup.
    pose proof (reduce_puzzle_spec _ _ _ (Hr0 82 (le_n 82))) as Spec.
    destruct (reducer_spec_some d _ Spec r eq_refl) as (N & _ & _).
    apply assignment_narrows with d; assumption.
Qed.

Lemma X4_witness :
  is_assignment (grid2values diag_sudoku_grid) = true /\
  solved_grid (grid2values diag_sudoku_solved) = true /\
  fits (grid2values diag_sudoku_solved) (grid2values diag_sudoku_grid) = true /\
  exists r, (forall fuel, 82 <= fuel ->
             reduce_puzzle fuel (grid2values diag_sudoku_grid) = Return (Some r)) /\
            fits (grid2values diag_sudoku_solved) r = true.
Proof.
  split; [reflexivity |]. split; [reflexivity |]. split; [reflexivity |].
  exact (X4_reduce_puzzle_keeps_solutions (grid2values diag_sudoku_grid)
           (grid2values diag_sudoku_solved) eq_refl eq_refl eq_refl).
Defined.

(** X5: [search] is complete: on an assignment of digit candidates that
    some solved grid fits, it does not answer [False] but returns a solved
    grid that fits the assignment. *)
Theorem X5_search_finds_a_solution_when_one_exists d sol :
  is_assignment d = true -> candidates_ok d = true ->
  solved_grid sol = true -> fits sol d = true ->
  exists found,
    (forall fuel, 811 <= fuel -> search fuel d = Return (Some found)) /\
    solved_grid found = true /\ fits found d = true.
Proof.
  intros W C S F. pose proof (candidates_ok_within d C) as WD.
  destruct (search_terminates d W (within_digits_short d WD)) as [r Hr].
  pose proof (Hr 811 (le_n 811)) as H811.
  assert (T : truthy r = true).
  { apply (search_complete sol 811 d r); auto.
    - apply solved_grid_conflict_free. assumption.
    - apply (solved_grid_parts sol S).
    - apply fits_admits. assumption. }
  destruct r as [found |]; [| discriminate T].
  exists found. split; [assumption |]. split.
  - apply search_sound with 811 d; assumption.
  - apply admits_fits; [apply assignment_NoDup; assumption |].
    apply narrows_singles_admits.
    + apply search_narrows with 811. assumption.
    + apply search_some_singles with 811 d; assumption.
Qed.

Lemma X5_witness :
  is_assignment (grid2values open_grid) = true /\
  candidates_ok (grid2values open_grid) = true /\
  solved_grid (grid2values found_with_twins) = true /\
  fits (grid2values found_with_twins) (grid2values open_grid) = true /\
  exists found,
    (forall fuel, 811 <= fuel ->
       search fuel (grid2values open_grid) = Return (Some found)) /\
    solved_grid found = true /\ fits found (grid2values open_grid) = true.
Proof.
  split; [reflexivity |]. split; [reflexivity |].
  split; [reflexivity |]. split; [reflexivity |].
  exact (X5_search_finds_a_solution_when_one_exists (grid2values open_grid)
           (grid2values found_with_twins) eq_refl eq_refl eq_refl eq_refl).
Defined.

(** X6: an assignment that [search] returns has exactly one candidate in
    every cell, and that candidate is one of those the cell had in the
    assignment [search] was called on; in particular every given of a
    puzzle is kept. *)
Theorem X6_search_answer_is_among_the_candidates d sol fuel :
  is_assignment d = true -> search fuel d = Return (Some sol) ->
  all_single sol = true /\ fits sol d = true /\ narrows d sol.
Proof.
  intros W H. pose proof (search_some_singles fuel d sol W H) as S1.
  pose proof (search_narrows fuel d sol H) as N.
  pose proof (assignment_narrows _ _ N W) as Ws.
  split; [apply singles_all_single; [apply assignment_NoDup |]; assumption |].
  split; [| assumption].
  apply admits_fits; [apply assignment_NoDup; assumption |].
  apply narrows_singles_admits; assumption.
Qed.

Lemma X6_witness :
  is_assignment (grid2values diag_sudoku_grid) = true /\
  search 811 (grid2values diag_sudoku_grid)
  = Return (Some (grid2values diag_sudoku_solved)) /\
  all_single (grid2values diag_sudoku_solved) = true /\
  fits (grid2values diag_sudoku_solved) (grid2values diag_sudoku_grid) = true /\
  narrows (grid2values diag_sudoku_grid) (grid2values diag_sudoku_solved).
Proof.
  assert (H : search 811 (grid2values diag_sudoku_grid)
              = Return (Some (grid2values diag_sudoku_solved)))
    by (vm_compute; reflexivity).
  split; [reflexivity |]. split; [exact H |].
  exact (X6_search_answer_is_among_the_candidates (grid2values diag_sudoku_grid)
           (grid2values diag_sudoku_solved) 811 eq_refl H).
Defined.

(** ** Contradictions and missing keys *)

Lemma forallb_false_ex {A} (f : A -> bool) l :
  forallb f l = false -> exists x, In x l /\ f x = false.
Proof.
  induction l as [| a l IH]; simpl; intros H; [discriminate |].
  destruct (f a) eqn:F.
  - destruct (IH H) as (x & Hx & Fx). eauto.
  - eauto.
Qed.

Lemma get_None d k : ~ In k (keys d) -> get d k = None.
Proof.
  intros H. destruct (get d k) as [s |] eqn:G; [| reflexivity].
  exfalso. apply H. apply get_keys with s. assumption.
Qed.

Lemma covers_false d :
  covers d = false -> exists u b, In u unitlist /\ In b u /\ ~ In b (keys d).
Proof.
  intros H. apply forallb_false_ex in H. destruct H as (b & Hb & Hm).
  destruct (box_in_unit b Hb) as (u & Hu & Hbu). exists u, b.
  split; [assumption |]. split; [assumption |].
  intros Hin. apply mem_In in Hin. congruence.
Qed.

Lemma bind_no_fuel {A B} (m : outcome A) (f : A -> outcome B) :
  m <> OutOfFuel -> (forall a, f a <> OutOfFuel) -> bind m f <> OutOfFuel.
Proof.
  destruct m; simpl; intros H1 H2; [apply H2 | discriminate | contradiction].
Qed.

Lemma foldM_no_fuel {A S} (body : S -> A -> outcome S) xs :
  (forall st a, body st a <> OutOfFuel) ->
  forall st, foldM body xs st <> OutOfFuel.
Proof.
  intros H. induction xs as [| x xs IH]; simpl; intros st.
  - discriminate.
  - apply bind_no_fuel; auto.
Qed.

Lemma lookup_no_fuel d k : lookup d k <> OutOfFuel.
Proof. unfold lookup. destruct (get d k); discriminate. Qed.

Lemma discard_no_fuel c d cell : discard c d cell <> OutOfFuel.
Proof.
  unfold discard. apply bind_no_fuel; [apply lookup_no_fuel | discriminate].
Qed.

Lemma eliminate_no_fuel d : eliminate d <> OutOfFuel.
Proof.
  unfold eliminate. apply foldM_no_fuel. intros st k. unfold eliminate_item.
  apply bind_no_fuel; [apply lookup_no_fuel |].
  intros [| c [| y rest]]; try discriminate.
  apply foldM_no_fuel. intros st0 p. apply discard_no_fuel.
Qed.

Lemma places_no_fuel c d u : places c d u <> OutOfFuel.
Proof.
  induction u as [| b u IH]; simpl; [discriminate |].
  apply bind_no_fuel; [apply lookup_no_fuel |]. intros s.
  apply bind_no_fuel; [assumption | discriminate].
Qed.

Lemma only_choice_unit_no_fuel d u : only_choice_unit d u <> OutOfFuel.
Proof.
  unfold only_choice_unit. apply foldM_no_fuel. intros st c.
  unfold only_choice_digit. apply bind_no_fuel; [apply places_no_fuel |].
  intros [| b [| b' l]]; discriminate.
Qed.

Lemma possible_twins_no_fuel d u : possible_twins d u <> OutOfFuel.
Proof.
  induction u as [| b u IH]; simpl; [discriminate |].
  apply bind_no_fuel; [apply lookup_no_fuel |]. intros s.
  apply bind_no_fuel; [assumption | discriminate].
Qed.

Lemma twin_pairs_no_fuel u pt : forall d, twin_pairs u pt d <> OutOfFuel.
Proof.
  induction pt as [| pi rest IH]; simpl; intros d; [discriminate |].
  apply bind_no_fuel; [| auto].
  apply foldM_no_fuel. intros st pj. unfold twins_with.
  destruct (String.eqb (snd pi) (snd pj)); [| discriminate].
  unfold strip_twin. apply foldM_no_fuel. intros st0 cell.
  apply foldM_no_fuel. intros st1 c. apply discard_no_fuel.
Qed.

Lemma naked_twins_unit_no_fuel d u : naked_twins_unit d u <> OutOfFuel.
Proof.
  unfold naked_twins_unit. apply bind_no_fuel; [apply possible_twins_no_fuel |].
  intros pt. apply twin_pairs_no_fuel.
Qed.

Lemma places_missing c d u b : In b u -> get d b = None -> places c d u = KeyError.
Proof.
  intros Hb G. induction u as [| x u IH]; simpl; [contradiction |].
  unfold lookup. destruct (get d x) as [s |] eqn:Gx; [| reflexivity].
  destruct Hb as [-> | Hb]; [congruence |].
  cbn [bind]. rewrite (IH Hb). reflexivity.
Qed.

Lemma possible_twins_missing d u b :
  In b u -> get d b = None -> possible_twins d u = KeyError.
Proof.
  intros Hb G. induction u as [| x u IH]; simpl; [contradiction |].
  unfold lookup. destruct (get d x) as [s |] eqn:Gx; [| reflexivity].
  destruct Hb as [-> | Hb]; [congruence |].
  cbn [bind]. rewrite (IH Hb). reflexivity.
Qed.

(** A loop that keeps the keys raises [KeyError] when one of its turns
    does so on every dictionary with these keys. *)
Lemma foldM_raises {A} (body : values -> A -> outcome values) xs x :
  (forall st a, body st a <> OutOfFuel) ->
  (forall st a st', body st a = Return st' -> keys st' = keys st) ->
  In x xs ->
  forall st, (forall st', keys st' = keys st -> body st' x = KeyError) ->
             foldM body xs st = KeyError.
Proof.
  intros NF K. induction xs as [| a xs IH]; simpl; intros Hx st Hraise.
  - contradiction.
  - destruct (body st a) as [st1 | |] eqn:E; cbn [bind].
    + destruct Hx as [-> | Hx].
      * rewrite (Hraise st eq_refl) in E. discriminate.
      * apply IH; [assumption |]. intros st' Hk. apply Hraise.
        rewrite Hk. apply (K st a st1 E).
    + reflexivity.
    + exfalso. apply (NF st a). assumption.
Qed.

Lemma only_choice_missing d u b :
  In u unitlist -> In b u -> ~ In b (keys d) -> only_choice d = KeyError.
Proof.
  intros Hu Hb Hn. unfold only_choice.
  apply (foldM_raises only_choice_unit unitlist u); auto.
  - intros st a. apply only_choice_unit_no_fuel.
  - intros st a st' H. apply (only_choice_unit_narrows st a st' H).
  - intros st' Hk. unfold only_choice_unit. cbn [Str.chars list_ascii_of_string foldM].
    unfold only_choice_digit at 1.
    rewrite (places_missing _ st' u b Hb); [reflexivity |].
    apply get_None. rewrite Hk. assumption.
Qed.

Lemma naked_twins_missing d u b :
  In u unitlist -> In b u -> ~ In b (keys d) -> naked_twins d = KeyError.
Proof.
  intros Hu Hb Hn. unfold naked_twins.
  apply (foldM_raises naked_twins_unit unitlist u); auto.
  - intros st a. apply naked_twins_unit_no_fuel.
  - intros st a st' H. apply (naked_twins_unit_narrows st a st' H).
  - intros st' Hk. unfold naked_twins_unit.
    rewrite (possible_twins_missing st' u b Hb); [reflexivity |].
    apply get_None. rewrite Hk. assumption.
Qed.

Lemma reduce_pass_missing d u b :
  In u unitlist -> In b u -> ~ In b (keys d) -> reduce_pass d = KeyError.
Proof.
  intros Hu Hb Hn. unfold reduce_pass.
  destruct (eliminate d) as [e | |] eqn:E; cbn [bind].
  - apply only_choice_missing with u b; auto.
    destruct (eliminate_narrows d e E) as [K _]. rewrite K. assumption.
  - reflexivity.
  - exfalso. apply (eliminate_no_fuel d). assumption.
Qed.

(** X7: when two peers are both fixed to the same digit, [reduce_puzzle]
    answers [False] in its first turn, and so does [search]. *)
Theorem X7_equal_fixed_peers_fail d k p c fuel :
  is_assignment d = true ->
  get d k = Some (Str.of_char c) -> get d p = Some (Str.of_char c) ->
  mem p (peers k) = true ->
  reduce_puzzle (S fuel) d = Return None /\ search (S fuel) d = Return None.
Proof.
  intros W Gk Gp Hp. apply mem_In in Hp.
  pose proof (assignment_covers d W) as C.
  destruct (eliminate_total (keys d) C d eq_refl) as (e & He & Ne).
  destruct (only_choice_total (keys d) C e (proj1 Ne)) as (e2 & Ho & No).
  assert (Z : count_len 0 e2 <> 0).
  { intros Z2. pose proof (no_empty_back e e2 No Z2) as Z1.
    destruct Ne as [_ G]. destruct (G k _ Gk) as (sk & Gek & Subk).
    assert (Ek : sk = Str.of_char c).
    { apply StrFacts.subseq_same_length; [assumption |].
      pose proof (StrFacts.subseq_length _ _ Subk) as L. simpl in L.
      pose proof (no_empty_get e k sk Z1 Gek). simpl. lia. }
    subst sk.
    destruct (eliminate_propagated (keys d) d e He k c p) as (sp & Gep & Ap); auto.
    - apply get_keys with (Str.of_char c). assumption.
    - intros s Gs. rewrite Gk in Gs. injection Gs as <-. reflexivity.
    - destruct (G p _ Gp) as (sp' & Gep' & Subp). rewrite Gep in Gep'.
      injection Gep' as <-.
      pose proof (StrFacts.subseq_single_absent c sp Subp Ap) as ->.
      apply (no_empty_get e p EmptyString Z1 Gep). reflexivity. }
  assert (Hred : reduce_puzzle (S fuel) d = Return None).
  { simpl. unfold reduce_pass. rewrite He. cbn [bind]. rewrite Ho. cbn [bind].
    destruct (Nat.eqb_spec (count_len 0 e2) 0); [contradiction | reflexivity]. }
  split; [assumption |]. rewrite search_S, Hred. reflexivity.
Qed.

Lemma X7_witness :
  is_assignment (grid2values repeated_grid) = true /\
  get (grid2values repeated_grid) "A1" = Some (Str.of_char "2") /\
  get (grid2values repeated_grid) "A2" = Some (Str.of_char "2") /\
  mem "A2" (peers "A1") = true /\
  reduce_puzzle 1 (grid2values repeated_grid) = Return None /\
  search 1 (grid2values repeated_grid) = Return None.
Proof.
  split; [reflexivity |]. split; [reflexivity |]. split; [reflexivity |].
  split; [reflexivity |].
  exact (X7_equal_fixed_peers_fail (grid2values repeated_grid) "A1" "A2" "2" 0
           eq_refl eq_refl eq_refl eq_refl).
Defined.

(** X8: a dictionary that lacks one of the 81 cells makes [only_choice],
    [naked_twins], [reduce_puzzle] and [search] raise [KeyError]. *)
Theorem X8_missing_cell_raises_KeyError d fuel :
  covers d = false ->
  only_choice d = KeyError /\ naked_twins d = KeyError /\
  reduce_puzzle (S fuel) d = KeyError /\ search (S fuel) d = KeyError.
Proof.
  intros H. destruct (covers_false d H) as (u & b & Hu & Hb & Hn).
  assert (Hred : reduce_puzzle (S fuel) d = KeyError).
  { simpl. rewrite (reduce_pass_missing d u b Hu Hb Hn). reflexivity. }
  split; [apply only_choice_missing with u b; assumption |].
  split; [apply naked_twins_missing with u b; assumption |].
  split; [assumption |]. rewrite search_S, Hred. reflexivity.
Qed.

Lemma X8_witness :
  covers (tl (grid2values diag_sudoku_grid)) = false /\
  only_choice (tl (grid2values diag_sudoku_grid)) = KeyError /\
  naked_twins (tl (grid2values diag_sudoku_grid)) = KeyError /\
  reduce_puzzle 1 (tl (grid2values diag_sudoku_grid)) = KeyError /\
  search 1 (tl (grid2values diag_sudoku_grid)) = KeyError.
Proof.
  split; [reflexivity |].
  exact (X8_missing_cell_raises_KeyError (tl (grid2values diag_sudoku_grid)) 0 eq_refl).
Defined.

(** ** What a pass of each strategy leaves *)

(** X9: after [eliminate], a cell that was fixed on entry is either empty
    (a peer fixed to the same digit came first) or still holds its digit,
    and then none of its peers has that digit as a candidate. *)
Theorem X9_eliminate_clears_the_peers_of_fixed_cells d e k c :
  eliminate d = Return e -> get d k = Some (Str.of_char c) ->
  get e k = Some EmptyString \/
  (get e k = Some (Str.of_char c) /\
   forall p, In p (peers k) ->
             exists s, get e p = Some s /\ Str.contains c s = false).
Proof.
  intros He Gk. destruct (eliminate_narrows d e He) as [_ G].
  destruct (G k _ Gk) as (s & Ge & Sub).
  destruct s as [| x s']; [left; assumption | right].
  assert (E : String x s' = Str.of_char c).
  { apply StrFacts.subseq_same_length; [assumption |].
    pose proof (StrFacts.subseq_length _ _ Sub) as L. simpl in *. lia. }
  rewrite E in Ge. split; [assumption |]. intros p Hp.
  apply (eliminate_propagated (keys d) d e He k c p); auto.
  - apply get_keys with (Str.of_char c). assumption.
  - intros s Gs. rewrite Gk in Gs. injection Gs as <-. reflexivity.
Qed.

Lemma X9_witness :
  eliminate (grid2values diag_sudoku_grid)
  = Return (returned [] (eliminate (grid2values diag_sudoku_grid))) /\
  get (grid2values diag_sudoku_grid) "A1" = Some (Str.of_char "2") /\
  (get (returned [] (eliminate (grid2values diag_sudoku_grid))) "A1" = Some EmptyString \/
   (get (returned [] (eliminate (grid2values diag_sudoku_grid))) "A1"
    = Some (Str.of_char "2") /\
    forall p, In p (peers "A1") ->
              exists s, get (returned [] (eliminate (grid2values diag_sudoku_grid))) p = Some s /\
                        Str.contains "2" s = false)).
Proof.
  assert (H : eliminate (grid2values diag_sudoku_grid)
              = Return (returned [] (eliminate (grid2values diag_sudoku_grid))))
    by (vm_compute; reflexivity).
  split; [exact H |]. split; [reflexivity |].
  exact (X9_eliminate_clears_the_peers_of_fixed_cells (grid2values diag_sudoku_grid)
           _ "A1" "2" H eq_refl).
Defined.


Lemma kept_or_chosen_refl d : kept_or_chosen d d.
Proof. split; [reflexivity | auto]. Qed.

Lemma kept_or_chosen_trans a b c :
  kept_or_chosen a b -> kept_or_chosen b c -> kept_or_chosen a c.
Proof.
  intros [K1 G1] [K2 G2]. split; [congruence |]. intros k s H.
  destruct (G1 k s H) as [Hb | (L & x & Hx & Hb)].
  - apply G2. assumption.
  - right. split; [assumption |]. exists x. split; [assumption |].
    destruct (G2 k _ Hb) as [Hc | (L' & _)]; [assumption | simpl in L'; lia].
Qed.

Lemma only_choice_digit_kept_or_chosen u d c d' :
  only_choice_digit u d c = Return d' -> kept_or_chosen d d'.
Proof.
  unfold only_choice_digit. intros H. inv_bind H.
  pose proof (places_spec _ _ _ _ Ha) as E.
  destruct a as [| b [| b' rest]]; try (injection H as <-; apply kept_or_chosen_refl).
  injection H as <-.
  assert (Hb : In b (filter (has c d) u)) by (rewrite <- E; left; reflexivity).
  apply filter_In in Hb. destruct Hb as [_ Hb]. unfold has in Hb.
  destruct (get d b) as [s |] eqn:G; [| discriminate]. split.
  - apply keys_set. apply get_keys with s. assumption.
  - intros k t Gk. destruct (string_dec b k) as [<- | N].
    + rewrite G in Gk. injection Gk as <-. rewrite get_set_same.
      destruct s as [| x [| y s']].
      * discriminate.
      * left. simpl in Hb. rewrite orb_false_r in Hb. apply Ascii.eqb_eq in Hb.
        subst x. reflexivity.
      * right. split; [simpl; lia |]. exists c. auto.
    + left. rewrite get_set_other by assumption. assumption.
Qed.

Lemma only_choice_kept_or_chosen d e : only_choice d = Return e -> kept_or_chosen d e.
Proof.
  unfold only_choice.
  apply (foldM_preorder kept_or_chosen);
    [apply kept_or_chosen_refl | apply kept_or_chosen_trans |].
  intros st u st' _. unfold only_choice_unit.
  apply (foldM_preorder kept_or_chosen);
    [apply kept_or_chosen_refl | apply kept_or_chosen_trans |].
  intros st0 c st0' _. apply only_choice_digit_kept_or_chosen.
Qed.

(** X10: [only_choice] leaves a cell as it was or replaces two or more
    candidates by one of them; it therefore never changes a fixed cell,
    never empties a cell, and leaves the number of empty cells as it
    was. *)
Theorem X10_only_choice_fixes_or_keeps d e :
  only_choice d = Return e ->
  kept_or_chosen d e /\ count_len 0 e = count_len 0 d.
Proof.
  intros H. pose proof (only_choice_kept_or_chosen d e H) as KC.
  split; [assumption |]. destruct KC as [K G]. unfold count_len. rewrite K.
  f_equal. apply filter_ext_in. intros k Hk.
  destruct (keys_get d k Hk) as [s Hs]. rewrite Hs.
  destruct (G k s Hs) as [-> | (L & c & _ & ->)]; [reflexivity |].
  destruct s as [| x s']; [simpl in L; lia | reflexivity].
Qed.

Lemma X10_witness :
  only_choice (grid2values diag_sudoku_grid)
  = Return (returned [] (only_choice (grid2values diag_sudoku_grid))) /\
  kept_or_chosen (grid2values diag_sudoku_grid)
                 (returned [] (only_choice (grid2values diag_sudoku_grid))) /\
  count_len 0 (returned [] (only_choice (grid2values diag_sudoku_grid)))
  = count_len 0 (grid2values diag_sudoku_grid).
Proof.
  assert (H : only_choice (grid2values diag_sudoku_grid)
              = Return (returned [] (only_choice (grid2values diag_sudoku_grid))))
    by (vm_compute; reflexivity).
  split; [exact H |].
  exact (X10_only_choice_fixes_or_keeps (grid2values diag_sudoku_grid) _ H).
Defined.

(** ** The order of the peers *)

Lemma foldM_ext {A S} (f g : S -> A -> outcome S) xs :
  (forall st a, f st a = g st a) -> forall st, foldM f xs st = foldM g xs st.
Proof.
  intros H. induction xs as [| x xs IH]; simpl; intros st; [reflexivity |].
  rewrite H. destruct (g st x); simpl; auto.
Qed.

(** X11: the result of [eliminate] does not depend on the order in which
    the sets [peers[k]] are iterated. *)
Theorem X11_eliminate_ignores_the_order_of_peers order d :
  (forall k, Permutation (order k) (peers k)) ->
  eliminate_ordered order d = eliminate d.
Proof.
  intros H. unfold eliminate_ordered, eliminate. apply foldM_ext.
  intros st k. unfold eliminate_item_ordered, eliminate_item.
  destruct (lookup st k) as [v | |]; cbn [bind]; try reflexivity.
  destruct v as [| c [| y rest]]; try reflexivity.
  apply discard_perm. apply H.
Qed.

Lemma X11_witness :
  (forall k, Permutation (rev (peers k)) (peers k)) /\
  eliminate_ordered (fun k => rev (peers k)) (grid2values diag_sudoku_grid)
  = eliminate (grid2values diag_sudoku_grid).
Proof.
  assert (H : forall k, Permutation (rev (peers k)) (peers k))
    by (intros k; apply Permutation_sym, Permutation_rev).
  split; [exact H |].
  exact (X11_eliminate_ignores_the_order_of_peers
           (fun k => rev (peers k)) (grid2values diag_sudoku_grid) H).
Defined.

(** ** The assignment the reducer returns *)

Lemma filter_length_same {A} (f g : A -> bool) l :
  (forall x, In x l -> f x = true -> g x = true) ->
  List.length (filter f l) = List.length (filter g l) ->
  forall x, In x l -> g x = true -> f x = true.
Proof.
  induction l as [| a l IH]; simpl; intros Himp E x Hx Gx; [contradiction |].
  pose proof (filter_length_mono f g l (fun y Hy => Himp y (or_intror Hy))) as M.
  destruct (f a) eqn:Fa.
  - rewrite (Himp a (or_introl eq_refl) Fa) in E. simpl in E.
    destruct Hx as [<- | Hx]; [assumption |].
    apply IH; auto; lia.
  - destruct (g a) eqn:Ga; simpl in E; [lia |].
    destruct Hx as [<- | Hx]; [congruence |].
    apply IH; auto.
Qed.

(** X12: in an assignment that [reduce_puzzle] returns, the digit of a
    solved cell is not a candidate of any of its peers; the assignment
    narrows the one the reducer was called on and has no empty cell. *)
Theorem X12_reduced_assignment_has_no_conflict d r fuel :
  is_assignment d = true -> reduce_puzzle fuel d = Return (Some r) ->
  conflict_free r /\ narrows d r /\ count_len 0 r = 0.
Proof.
  intros W H. pose proof (reduce_puzzle_spec _ _ _ H) as Spec.
  destruct (reducer_spec_some d _ Spec r eq_refl) as (N & Z & w & Nw & P & E).
  split; [| auto]. intros k c p Gk Hp.
  pose proof (reduce_pass_narrows w r P) as Nwr.
  apply reduce_pass_inv in P. destruct P as (e & He & Ho).
  pose proof (eliminate_narrows w e He) as Nwe.
  pose proof (only_choice_narrows e r Ho) as Ner.
  assert (Hkw : In k (keys w)).
  { destruct Nwr as [K _]. rewrite <- K. apply get_keys with (Str.of_char c). assumption. }
  assert (Fixed : forall s, get w k = Some s -> String.length s = 1).
  { intros s Gs.
    assert (F : match get w k with
                | Some s0 => Nat.eqb (String.length s0) 1
                | None => false
                end = true).
    { apply (filter_length_same
               (fun b => match get w b with
                         | Some s0 => Nat.eqb (String.length s0) 1
                         | None => false
                         end)
               (fun b => match get r b with
                         | Some s0 => Nat.eqb (String.length s0) 1
                         | None => false
                         end) (keys w)); auto.
      - intros x Hx Fx. destruct (get w x) as [t |] eqn:Gx; [| discriminate].
        destruct Nwr as [_ G]. destruct (G x t Gx) as (t' & Gt' & Sub).
        rewrite Gt'. apply Nat.eqb_eq in Fx. apply Nat.eqb_eq.
        pose proof (StrFacts.subseq_length _ _ Sub).
        pose proof (no_empty_get r x t' Z Gt'). lia.
      - unfold count_len in E. destruct Nwr as [K _]. rewrite K in E.
        symmetry. exact E.
      - rewrite Gk. reflexivity. }
    rewrite Gs in F. apply Nat.eqb_eq. assumption. }
  destruct (narrows_back e r k _ Ner Gk) as (se & Ge & Sube).
  destruct (narrows_back w e k _ Nwe Ge) as (sw & Gw & Subw).
  assert (Ee : se = Str.of_char c).
  { symmetry. apply StrFacts.subseq_same_length; [assumption |].
    pose proof (StrFacts.subseq_length _ _ Sube) as L1.
    pose proof (StrFacts.subseq_length _ _ Subw) as L2.
    pose proof (Fixed sw Gw). simpl in *. lia. }
  subst se.
  destruct (eliminate_propagated (keys w) w e He k c p Hkw Ge Fixed Hp) as (sp & Gp & Ap).
  unfold has. destruct (get r p) as [t |] eqn:Gt; [| reflexivity].
  destruct (narrows_back e r p t Ner Gt) as (t0 & Gt0 & Subt).
  rewrite Gp in Gt0. injection Gt0 as <-.
  apply StrFacts.subseq_absent with sp; assumption.
Qed.

Lemma X12_witness :
  is_assignment (grid2values open_grid) = true /\
  reduce_puzzle 82 (grid2values open_grid)
  = Return (Some (reduced (grid2values open_grid))) /\
  conflict_free (reduced (grid2values open_grid)) /\
  narrows (grid2values open_grid) (reduced (grid2values open_grid)) /\
  count_len 0 (reduced (grid2values open_grid)) = 0.
Proof.
  assert (H : reduce_puzzle 82 (grid2values open_grid)
              = Return (Some (reduced (grid2values open_grid))))
    by (vm_compute; reflexivity).
  split; [reflexivity |]. split; [exact H |].
  exact (X12_reduced_assignment_has_no_conflict (grid2values open_grid)
           (reduced (grid2values open_grid)) 82 eq_refl H).
Defined.

(** ** Edge cases and bounds *)

(** X13: without a fixed cell, [eliminate] reads no peer and returns the
    dictionary as it is, whatever its keys (also when it is empty or lacks
    cells of the board, where [only_choice] raises [KeyError]). *)
Theorem X13_eliminate_without_fixed_cells d :
  count_len 1 d = 0 -> eliminate d = Return d.
Proof.
  intros H. unfold eliminate. apply foldM_noop. intros k Hk.
  unfold eliminate_item. destruct (keys_get d k Hk) as [v Hv].
  unfold lookup. rewrite Hv. cbn [bind].
  pose proof (filter_length_zero _ _ H k Hk) as F. cbv beta in F. rewrite Hv in F.
  destruct v as [| c [| y rest]]; [reflexivity | simpl in F; discriminate F | reflexivity].
Qed.

Lemma X13_witness :
  count_len 1 [("A1", "123456789"); ("B7", "")] = 0 /\
  eliminate [("A1", "123456789"); ("B7", "")]
  = Return [("A1", "123456789"); ("B7", "")].
Proof.
  split; [reflexivity |].
  exact (X13_eliminate_without_fixed_cells [("A1", "123456789"); ("B7", "")] eq_refl).
Defined.

(** X14: the loop of [reduce_puzzle] makes at most one turn more than there
    are unsolved cells: on an assignment with [n] solved cells, [82 - n]
    turns are enough for it to return. *)
Theorem X14_reduce_puzzle_turns d fuel :
  is_assignment d = true -> 82 <= fuel + count_len 1 d ->
  exists r, forall fuel', fuel <= fuel' -> reduce_puzzle fuel' d = Return r.
Proof.
  intros W L. destruct (reduce_puzzle_runs fuel d W L) as [r Hr].
  exists r. intros fuel' L'. apply reduce_puzzle_mono with fuel; assumption.
Qed.

Lemma X14_witness :
  is_assignment (grid2values diag_sudoku_grid) = true /\
  82 <= 65 + count_len 1 (grid2values diag_sudoku_grid) /\
  exists r, forall fuel', 65 <= fuel' ->
            reduce_puzzle fuel' (grid2values diag_sudoku_grid) = Return r.
Proof.
  assert (L : 82 <= 65 + count_len 1 (grid2values diag_sudoku_grid))
    by (apply Nat.leb_le; vm_compute; reflexivity).
  split; [reflexivity |]. split; [exact L |].
  exact (X14_reduce_puzzle_turns (grid2values diag_sudoku_grid) 65 eq_refl L).
Defined.
